(** * LeadScore: the scoring engine, its configuration and its collaborators

    A shallow embedding of the Python sources

      - [src/models/lead.py]          (Lead, EngagementSummary, LeadScore)
      - [src/config.py]               (Settings, validate_weights, get_settings)
      - [src/services/scorer.py]      (LeadScorer)
      - [src/api/alerts.py]           (AlertConfig, update_alert_config)
      - [src/services/hubspot.py]     (HubSpotClient.get_contacts)
      - [src/services/slack_notifier.py], [src/main.py] (the refresh cycle)

    Conventions of the embedding.

      - A Python [int] is a [Z].  A Python [float] is an exact rational [Q]:
        the arithmetic of the scorer ([/], [*], [+], [min], [max], [round])
        is read over the rationals, without binary rounding error.
      - A [datetime] is naive UTC, counted in microseconds ([Z]), which is
        what [datetime.utcnow()] produces throughout the code base; a
        [timedelta] is a difference of two of them.
      - A [str] is a [string]; [str.lower] is taken on ASCII letters.
      - Effects (the clock, the cached settings object, logging, HTTP) are
        threaded through the monad [M] below; a raised exception is [inl]. *)

From Stdlib Require Import ZArith QArith Qround Qminmax Qabs Lia Lqa.
From Stdlib Require Import Ascii String Sorted Permutation.
From stdpp Require Import base gmap strings list.

Open Scope Z_scope.

(** ** Python values *)

Definition datetime := Z.
Definition timedelta := Z.

Definition MICROSECONDS_PER_DAY : Z := 86400 * 1000000.

(** [timedelta.days]: the normalised day component, a floor division. *)
Definition timedelta_days (d : timedelta) : Z := d / MICROSECONDS_PER_DAY.

Definition timedelta_of (days hours : Z) : timedelta :=
  days * MICROSECONDS_PER_DAY + hours * 3600 * 1000000.

(** [str.lower()] on ASCII. *)
Definition lower_ascii (c : ascii) : ascii :=
  let n := nat_of_ascii c in
  if ((65 <=? n) && (n <=? 90))%nat then ascii_of_nat (n + 32) else c.

Fixpoint lower (s : string) : string :=
  match s with
  | EmptyString => EmptyString
  | String c s' => String (lower_ascii c) (lower s')
  end.

(** [round(x, 2)] of a float: to the nearest multiple of 1/100, ties to the
    even one. *)
Definition round_half_even (q : Q) : Z :=
  let f := Qfloor q in
  match (q - inject_Z f ?= 1 # 2)%Q with
  | Lt => f
  | Gt => f + 1
  | Eq => if Z.even f then f else f + 1
  end.

Definition round (x : Q) (ndigits : Z) : Q :=
  let p := inject_Z (10 ^ ndigits) in
  (inject_Z (round_half_even (x * p)) / p)%Q.

(** ** models/lead.py *)

Inductive ScoreCategory := HOT | WARM | COLD.

Record EngagementSummary := {
  email_opens : Z;
  email_clicks : Z;
  website_visits : Z;
  crm_activities : Z;
  last_email_open : option datetime;
  last_website_visit : option datetime;
  last_crm_activity : option datetime
}.

Record Lead := {
  id : string;
  email : string;
  name : option string;
  first_name : option string;
  last_name : option string;
  company : option string;
  job_title : option string;
  phone : option string;
  company_size : option Z;
  deal_stage : option string;
  created_at : datetime;
  last_activity : option datetime;
  engagement : EngagementSummary
}.

Record LeadScore := {
  lead : Lead;
  score : Q;
  score_category : ScoreCategory;
  score_breakdown : gmap string Q;
  calculated_at : datetime
}.

(** Functional updates of one engagement count, every other field kept. *)
Definition with_engagement (l : Lead) (e : EngagementSummary) : Lead :=
  {| id := id l; email := email l; name := name l; first_name := first_name l;
     last_name := last_name l; company := company l; job_title := job_title l;
     phone := phone l; company_size := company_size l;
     deal_stage := deal_stage l; created_at := created_at l;
     last_activity := last_activity l; engagement := e |}.


Definition with_email_opens (l : Lead) (n : Z) : Lead :=
  let e := engagement l in
  with_engagement l
    {| email_opens := n; email_clicks := email_clicks e;
       website_visits := website_visits e; crm_activities := crm_activities e;
       last_email_open := last_email_open e;
       last_website_visit := last_website_visit e;
       last_crm_activity := last_crm_activity e |}.

Definition with_email_clicks (l : Lead) (n : Z) : Lead :=
  let e := engagement l in
  with_engagement l
    {| email_opens := email_opens e; email_clicks := n;
       website_visits := website_visits e; crm_activities := crm_activities e;
       last_email_open := last_email_open e;
       last_website_visit := last_website_visit e;
       last_crm_activity := last_crm_activity e |}.

Definition with_website_visits (l : Lead) (n : Z) : Lead :=
  let e := engagement l in
  with_engagement l
    {| email_opens := email_opens e; email_clicks := email_clicks e;
       website_visits := n; crm_activities := crm_activities e;
       last_email_open := last_email_open e;
       last_website_visit := last_website_visit e;
       last_crm_activity := last_crm_activity e |}.

Definition with_crm_activities (l : Lead) (n : Z) : Lead :=
  let e := engagement l in
  with_engagement l
    {| email_opens := email_opens e; email_clicks := email_clicks e;
       website_visits := website_visits e; crm_activities := n;
       last_email_open := last_email_open e;
       last_website_visit := last_website_visit e;
       last_crm_activity := last_crm_activity e |}.

(** ** config.py: the settings object *)

Record Settings := {
  demo_mode : bool;
  hubspot_api_key : string;
  hubspot_api_url : string;
  slack_webhook_url : string;
  slack_channel : string;
  score_refresh_interval : Z;
  hot_lead_threshold : Z;
  warm_lead_threshold : Z;
  weight_email_opens : Q;
  weight_email_clicks : Q;
  weight_website_visits : Q;
  weight_crm_activities : Q;
  weight_deal_stage : Q;
  weight_company_size : Q;
  weight_recency : Q
}.

(** The class defaults of [Settings]. *)
Definition default_settings : Settings :=
  {| demo_mode := true;
     hubspot_api_key := EmptyString;
     hubspot_api_url := "https://api.hubapi.com";
     slack_webhook_url := EmptyString;
     slack_channel := "#sales-alerts";
     score_refresh_interval := 3600;
     hot_lead_threshold := 75;
     warm_lead_threshold := 50;
     weight_email_opens := 0.25;
     weight_email_clicks := 0.20;
     weight_website_visits := 0.20;
     weight_crm_activities := 0.15;
     weight_deal_stage := 0.10;
     weight_company_size := 0.05;
     weight_recency := 0.05 |}.

(** ** Exceptions, the outside world and the monad of effects *)

(** The exception classes the modelled code raises or meets.  All but the
    last two derive from [Exception]. *)
Inductive exn :=
| ValueError (msg : string)
| ValidationError (msg : string)
| HTTPException (status_code : Z) (detail : string)
| RequestValidationError
| AttributeError
| TypeError
| KeyError
| ConnectError
| HTTPStatusError (status_code : Z)
| JSONDecodeError
| CancelledError
| KeyboardInterrupt.

(** [isinstance(e, Exception)], what [except Exception] catches. *)
Definition is_Exception (e : exn) : bool :=
  match e with
  | CancelledError | KeyboardInterrupt => false
  | _ => true
  end.

#[local] Unset Elimination Schemes.
Inductive json :=
| JNull
| JBool (b : bool)
| JNum (n : Z)
| JStr (s : string)
| JList (items : list json)
| JDict (items : list (string * json)).
#[local] Set Elimination Schemes.

(** An [httpx.Response], as far as the code looks at it: what
    [raise_for_status()] and [json()] will do. *)
Record Response := {
  raise_for_status : option exn;
  response_json : exn + json
}.

(** The payloads posted to the Slack webhook, by the formatter that builds
    them, with the fields the formatter takes from its arguments. *)
Inductive SlackMessage :=
| HotLeadMessage (channel : string) (lead_score : LeadScore) (ts : datetime)
| SummaryMessage (channel : string) (total hot warm : Z) (ts : datetime).

Inductive LogLevel := INFO | WARNING | ERROR.

(** What the process does that can be seen from outside: log records
    ([LogException] is [logger.error] with the exception interpolated) and
    the HTTP requests it issues. *)
Inductive Event :=
| Log (level : LogLevel) (msg : string)
| LogException (msg : string) (e : exn)
| HttpGet (url : string) (limit : Z)
| HttpPost (url : string) (message : SlackMessage).

(** What the process does not control. *)
Record World := {
  (** the successive values returned by [datetime.utcnow()] *)
  utc : nat -> datetime;
  (** what [Settings()] reads from the environment and [.env] *)
  env_settings : Settings;
  (** [client.get(url, headers, params={"limit": limit})] *)
  client_get : string -> Z -> exn + Response;
  (** [client.post(url, json=message, timeout=10.0)] *)
  client_post : string -> SlackMessage -> exn + Response;
  (** [HubSpotClient._parse_contact]: pydantic validation and
      [datetime.fromisoformat] decide whether it returns or raises *)
  _parse_contact : json -> exn + Lead
}.

Record State := {
  (** number of clock readings taken so far *)
  tick : nat;
  (** the [lru_cache] of [get_settings]: the one shared [Settings] object *)
  settings_cache : option Settings;
  (** log records and HTTP requests issued, oldest first *)
  trace : list Event
}.

Definition M (A : Type) : Type := World -> State -> (exn + A) * State.

Definition ret {A} (a : A) : M A := fun _ st => (inr a, st).

Definition raise {A} (e : exn) : M A := fun _ st => (inl e, st).

Definition bind {A B} (m : M A) (k : A -> M B) : M B :=
  fun w st =>
    match m w st with
    | (inr a, st') => k a w st'
    | (inl e, st') => (inl e, st')
    end.

Notation "'let*' x ':=' m 'in' k" := (bind m (fun x => k))
  (at level 10, x name, m at level 100, k at level 200, only parsing).

(** [try: m  except Exception as e: h e] *)
Definition try_except {A} (m : M A) (h : exn -> M A) : M A :=
  fun w st =>
    match m w st with
    | (inl e, st') => if is_Exception e then h e w st' else (inl e, st')
    | r => r
    end.

Definition lift {A} (r : exn + A) : M A := fun _ st => (r, st).

Definition ask {A} (f : World -> A) : M A := fun w st => (inr (f w), st).

Definition utcnow : M datetime :=
  fun w st =>
    (inr (utc w (tick st)),
     {| tick := S (tick st); settings_cache := settings_cache st;
        trace := trace st |}).

Definition add_event (st : State) (e : Event) : State :=
  {| tick := tick st; settings_cache := settings_cache st;
     trace := trace st ++ [e] |}.

Definition emit (e : Event) : M unit :=
  fun _ st => (inr tt, add_event st e).

Definition get_cache : M (option Settings) :=
  fun _ st => (inr (settings_cache st), st).

Definition put_cache (s : Settings) : M unit :=
  fun _ st =>
    (inr tt,
     {| tick := tick st; settings_cache := Some s; trace := trace st |}).

(** The value a computation returns, or the exception it raises. *)
Definition eval {A} (m : M A) (w : World) (st : State) : exn + A :=
  fst (m w st).

Definition exec {A} (m : M A) (w : World) (st : State) : State :=
  snd (m w st).

(** ** services/scorer.py: LeadScorer *)

(** [self.weights]: a dict with exactly these seven literal keys, read only
    by literal key; one field per key. *)
Record Weights := {
  w_email_opens : Q;
  w_email_clicks : Q;
  w_website_visits : Q;
  w_crm_activities : Q;
  w_deal_stage : Q;
  w_company_size : Q;
  w_recency : Q
}.

(** [settings] is the shared settings object as it is when a method runs;
    [weights] is the copy taken by [__init__]. *)
Record LeadScorer := {
  settings : Settings;
  weights : Weights
}.

Section Scorers.

Open Scope Q_scope.

Definition _score_email_opens (lead : Lead) : M Q :=
  let opens := email_opens (engagement lead) in
  if (opens =? 0)%Z then ret 0.0
  else
    let* recency_boost :=
      match last_email_open (engagement lead) with
      | Some last =>
          let* now := utcnow in
          let days_since := timedelta_days (now - last)%Z in
          ret (if (days_since <=? 7)%Z then 1.5
               else if (days_since <=? 30)%Z then 1.2
               else 1.0)
      | None => ret 1.0
      end in
    let base_score := Qmin 1.0 (inject_Z opens / 10) in
    ret (Qmin 1.0 (base_score * recency_boost)).

Definition _score_email_clicks (lead : Lead) : Q :=
  let clicks := email_clicks (engagement lead) in
  Qmin 1.0 (inject_Z clicks / 5).

Definition _score_website_visits (lead : Lead) : M Q :=
  let visits := website_visits (engagement lead) in
  if (visits =? 0)%Z then ret 0.0
  else
    let* recency_boost :=
      match last_website_visit (engagement lead) with
      | Some last =>
          let* now := utcnow in
          let days_since := timedelta_days (now - last)%Z in
          ret (if (days_since <=? 3)%Z then 1.5
               else if (days_since <=? 7)%Z then 1.2
               else 1.0)
      | None => ret 1.0
      end in
    let base_score := Qmin 1.0 (inject_Z visits / 8) in
    ret (Qmin 1.0 (base_score * recency_boost)).

Definition _score_crm_activities (lead : Lead) : Q :=
  let activities := crm_activities (engagement lead) in
  Qmin 1.0 (inject_Z activities / 6).

Definition stage_scores : gmap string Q :=
  <["subscriber" := 0.2]> (
  <["lead" := 0.3]> (
  <["marketing_qualified" := 0.5]> (
  <["qualified" := 0.6]> (
  <["opportunity" := 0.8]> (
  <["customer" := 1.0]> ∅))))).

Definition _score_deal_stage (lead : Lead) : Q :=
  let stage := lower (default EmptyString (deal_stage lead)) in
  default 0.3 (stage_scores !! stage).

Definition _score_company_size (lead : Lead) : Q :=
  match company_size lead with
  | None => 0.3
  | Some size =>
      if (size =? 0)%Z then 0.3
      else if (size <=? 10)%Z then 0.3
      else if (size <=? 50)%Z then 0.5
      else if (size <=? 200)%Z then 0.7
      else if (size <=? 1000)%Z then 0.9
      else 1.0
  end.

Definition _score_recency (lead : Lead) : M Q :=
  match last_activity lead with
  | None => ret 0.0
  | Some last =>
      let* now := utcnow in
      let days_since := timedelta_days (now - last)%Z in
      ret (if (days_since <=? 1)%Z then 1.0
           else if (days_since <=? 3)%Z then 0.8
           else if (days_since <=? 7)%Z then 0.6
           else if (days_since <=? 14)%Z then 0.4
           else if (days_since <=? 30)%Z then 0.2
           else 0.0)
  end.

(** A score is a float, a threshold an int: [>=] compares their values. *)
Definition _categorize_score (self : LeadScorer) (score : Q) : ScoreCategory :=
  if Qle_bool (inject_Z (hot_lead_threshold (settings self))) score then HOT
  else if Qle_bool (inject_Z (warm_lead_threshold (settings self))) score
  then WARM
  else COLD.

(** The constructor of [LeadScore]: the field constraint [ge=0, le=100] on
    [score] is checked, [calculated_at] comes from its default factory. *)
Definition mk_LeadScore (lead : Lead) (score : Q) (category : ScoreCategory)
    (breakdown : gmap string Q) : M LeadScore :=
  if Qle_bool 0 score && Qle_bool score 100 then
    let* now := utcnow in
    ret {| lead := lead; score := score; score_category := category;
           score_breakdown := breakdown; calculated_at := now |}
  else raise (ValidationError "score").

Definition score_lead (self : LeadScorer) (lead : Lead) : M LeadScore :=
  let breakdown : gmap string Q := ∅ in
  let total_score := 0.0 in
  let* email_opens_score := _score_email_opens lead in
  let breakdown := <["email_opens" := email_opens_score]> breakdown in
  let total_score :=
    total_score + email_opens_score * w_email_opens (weights self) in
  let email_clicks_score := _score_email_clicks lead in
  let breakdown := <["email_clicks" := email_clicks_score]> breakdown in
  let total_score :=
    total_score + email_clicks_score * w_email_clicks (weights self) in
  let* website_visits_score := _score_website_visits lead in
  let breakdown := <["website_visits" := website_visits_score]> breakdown in
  let total_score :=
    total_score + website_visits_score * w_website_visits (weights self) in
  let crm_activities_score := _score_crm_activities lead in
  let breakdown := <["crm_activities" := crm_activities_score]> breakdown in
  let total_score :=
    total_score + crm_activities_score * w_crm_activities (weights self) in
  let deal_stage_score := _score_deal_stage lead in
  let breakdown := <["deal_stage" := deal_stage_score]> breakdown in
  let total_score :=
    total_score + deal_stage_score * w_deal_stage (weights self) in
  let company_size_score := _score_company_size lead in
  let breakdown := <["company_size" := company_size_score]> breakdown in
  let total_score :=
    total_score + company_size_score * w_company_size (weights self) in
  let* recency_score := _score_recency lead in
  let breakdown := <["recency" := recency_score]> breakdown in
  let total_score :=
    total_score + recency_score * w_recency (weights self) in
  let final_score := Qmin 100.0 (Qmax 0.0 (total_score * 100)) in
  let category := _categorize_score self final_score in
  mk_LeadScore lead (round final_score 2) category breakdown.

End Scorers.

(** ** Auxiliary definitions for the statements below *)

(** The shape shared by the two boosted engagement scorers:
    [min(1, min(1, n/d) * b)]. *)
Definition boosted (n : Z) (d b : Q) : Q :=
  Qmin 1.0 (Qmin 1.0 (inject_Z n / d) * b).

(** The recency boost of [_score_email_opens], for the clock reading [now]. *)
Definition opens_boost (now : datetime) (last : option datetime) : Q :=
  match last with
  | Some l =>
      let days_since := timedelta_days (now - l) in
      if days_since <=? 7 then 1.5%Q
      else if days_since <=? 30 then 1.2%Q else 1.0%Q
  | None => 1.0%Q
  end.

(** The recency boost of [_score_website_visits]. *)
Definition visits_boost (now : datetime) (last : option datetime) : Q :=
  match last with
  | Some l =>
      let days_since := timedelta_days (now - l) in
      if days_since <=? 3 then 1.5%Q
      else if days_since <=? 7 then 1.2%Q else 1.0%Q
  | None => 1.0%Q
  end.

(** The step function of the recency scorer, on whole days. *)
Definition recency_step (days_since : Z) : Q :=
  if days_since <=? 1 then 1.0%Q
  else if days_since <=? 3 then 0.8%Q
  else if days_since <=? 7 then 0.6%Q
  else if days_since <=? 14 then 0.4%Q
  else if days_since <=? 30 then 0.2%Q
  else 0.0%Q.


(** The computation [m] returns, and its value satisfies [P]. *)
Definition returns {A} (m : M A) (w : World) (st : State) (P : A -> Prop) : Prop :=
  exists a, eval m w st = inr a /\ P a.

(** [clamp(lo, hi, x)], as the aggregator writes it:
    [min(hi, max(lo, x))]. *)
Definition clamp (lo hi x : Q) : Q := Qmin hi (Qmax lo x).



(** ** LeadScorer.score_leads *)

(** [list.sort(key=key, reverse=True)].  Python's sort is stable, also with
    [reverse=True]: elements whose keys compare equal keep their order.
    Here by insertion: [x], which stood before every element of [l], goes
    in front of the first element whose key is not greater than its own. *)
Fixpoint insert_reverse {A} (key : A -> Q) (x : A) (l : list A) : list A :=
  match l with
  | [] => [x]
  | y :: l' =>
      if Qle_bool (key y) (key x) then x :: y :: l'
      else y :: insert_reverse key x l'
  end.

Definition sort_reverse {A} (key : A -> Q) (l : list A) : list A :=
  foldr (insert_reverse key) [] l.

(** The [for] loop of [score_leads]: [scored_leads] is the list built so
    far, appended to once per lead. *)
Fixpoint score_leads_loop (self : LeadScorer) (leads : list Lead)
    (scored_leads : list LeadScore) : M (list LeadScore) :=
  match leads with
  | [] => ret scored_leads
  | lead :: rest =>
      let* scored_lead := score_lead self lead in
      score_leads_loop self rest (scored_leads ++ [scored_lead])
  end.

Definition score_leads (self : LeadScorer) (leads : list Lead)
    : M (list LeadScore) :=
  let* scored_leads := score_leads_loop self leads [] in
  ret (sort_reverse score scored_leads).

(** The elements of [l] whose key equals [q], in the order of [l]. *)
Definition with_key {A} (key : A -> Q) (q : Q) (l : list A) : list A :=
  List.filter (fun x => Qeq_bool (key x) q) l.

(** [l] is in descending order of [key]. *)
Definition descending {A} (key : A -> Q) (l : list A) : Prop :=
  StronglySorted (fun a b => (key b <= key a)%Q) l.

(** [scored] holds one scored lead per lead of [leads], in their order, each
    the value of [score_lead] on that lead. *)
Definition scored_from (self : LeadScorer) (w : World)
    (leads : list Lead) (scored : list LeadScore) : Prop :=
  Forall2 (fun l ls =>
             lead ls = l /\
             exists st', eval (score_lead self l) w st' = inr ls)
          leads scored.

(** ** config.py: validate_weights, get_settings *)

Definition weights_total (self : Settings) : Q :=
  (weight_email_opens self
   + weight_email_clicks self
   + weight_website_visits self
   + weight_crm_activities self
   + weight_deal_stage self
   + weight_company_size self
   + weight_recency self)%Q.

Definition validate_weights (self : Settings) : M unit :=
  let total := weights_total self in
  if negb (Qle_bool (Qabs (total - 1.0)) 0.001)
  then raise (ValueError "Feature weights must sum to 1.0")
  else ret tt.

(** [@lru_cache() def get_settings()]: the body runs when nothing is cached;
    a call that raises caches nothing. *)
Definition get_settings : M Settings :=
  let* cached := get_cache in
  match cached with
  | Some settings => ret settings
  | None =>
      let* settings := ask env_settings in
      let* _ := validate_weights settings in
      let* _ := put_cache settings in
      ret settings
  end.

(** [LeadScorer.__init__] *)
Definition LeadScorer_init : M LeadScorer :=
  let* settings := get_settings in
  ret {| settings := settings;
         weights :=
           {| w_email_opens := weight_email_opens settings;
              w_email_clicks := weight_email_clicks settings;
              w_website_visits := weight_website_visits settings;
              w_crm_activities := weight_crm_activities settings;
              w_deal_stage := weight_deal_stage settings;
              w_company_size := weight_company_size settings;
              w_recency := weight_recency settings |} |}.

(** ** api/alerts.py *)

Record AlertConfig := {
  hot_threshold : Z;
  warm_threshold : Z;
  enable_slack : bool
}.

(** Building an [AlertConfig], from a request body or in the code: the
    field constraints [ge=0, le=100] are checked. *)
Definition AlertConfig_validate (hot warm : Z) (slack : bool) : M AlertConfig :=
  if (0 <=? hot) && (hot <=? 100) && (0 <=? warm) && (warm <=? 100)
  then ret {| hot_threshold := hot; warm_threshold := warm;
              enable_slack := slack |}
  else raise RequestValidationError.

(** Assignment to the two threshold attributes of a settings object. *)
Definition set_thresholds (s : Settings) (hot warm : Z) : Settings :=
  {| demo_mode := demo_mode s;
     hubspot_api_key := hubspot_api_key s;
     hubspot_api_url := hubspot_api_url s;
     slack_webhook_url := slack_webhook_url s;
     slack_channel := slack_channel s;
     score_refresh_interval := score_refresh_interval s;
     hot_lead_threshold := hot;
     warm_lead_threshold := warm;
     weight_email_opens := weight_email_opens s;
     weight_email_clicks := weight_email_clicks s;
     weight_website_visits := weight_website_visits s;
     weight_crm_activities := weight_crm_activities s;
     weight_deal_stage := weight_deal_stage s;
     weight_company_size := weight_company_size s;
     weight_recency := weight_recency s |}.

(** The handler; [settings] is the cached object, so assigning to its
    attributes changes what every later [get_settings()] returns. *)
Definition update_alert_config (config : AlertConfig) : M AlertConfig :=
  let* settings := get_settings in
  if warm_threshold config >=? hot_threshold config
  then raise (HTTPException 400
                "Warm threshold must be less than hot threshold")
  else
    let* _ := put_cache (set_thresholds settings (hot_threshold config)
                           (warm_threshold config)) in
    let* _ := emit (Log INFO "Updated alert config") in
    ret config.

(** [POST /api/alerts/config]: the body is validated into an [AlertConfig]
    before the handler runs. *)
Definition post_alerts_config (hot warm : Z) (slack : bool) : M AlertConfig :=
  let* config := AlertConfig_validate hot warm slack in
  update_alert_config config.

(** [AlertConfig(...)] called by the code: the same field constraints;
    pydantic raises its [ValidationError]. *)
Definition AlertConfig_new (hot warm : Z) (slack : bool) : M AlertConfig :=
  if (0 <=? hot) && (hot <=? 100) && (0 <=? warm) && (warm <=? 100)
  then ret {| hot_threshold := hot; warm_threshold := warm;
              enable_slack := slack |}
  else raise (ValidationError "AlertConfig").

(** [GET /api/alerts/config] *)
Definition get_alert_config : M AlertConfig :=
  let* settings := get_settings in
  AlertConfig_new (hot_lead_threshold settings)
    (warm_lead_threshold settings)
    (negb (String.eqb (slack_webhook_url settings) EmptyString)).

(** The weights of a settings object pass [validate_weights]. *)
Definition weights_valid (s : Settings) : Prop :=
  (Qabs (weights_total s - 1) <= 1 # 1000)%Q.

(** Whatever settings object is cached has valid weights: true when the
    process starts, and kept by every operation that writes the cache. *)
Definition cache_valid (st : State) : Prop :=
  forall s, settings_cache st = Some s -> weights_valid s.

(** The weights of a scorer are those of its settings, unchanged. *)
Definition weights_as_configured (sc : LeadScorer) : Prop :=
  w_email_opens (weights sc) = weight_email_opens (settings sc) /\
  w_email_clicks (weights sc) = weight_email_clicks (settings sc) /\
  w_website_visits (weights sc) = weight_website_visits (settings sc) /\
  w_crm_activities (weights sc) = weight_crm_activities (settings sc) /\
  w_deal_stage (weights sc) = weight_deal_stage (settings sc) /\
  w_company_size (weights sc) = weight_company_size (settings sc) /\
  w_recency (weights sc) = weight_recency (settings sc).

(** Settings with the given weights, every other field the default. *)
Definition settings_with_weights (w1 w2 w3 w4 w5 w6 w7 : Q) : Settings :=
  {| demo_mode := true;
     hubspot_api_key := EmptyString;
     hubspot_api_url := "https://api.hubapi.com";
     slack_webhook_url := EmptyString;
     slack_channel := "#sales-alerts";
     score_refresh_interval := 3600;
     hot_lead_threshold := 75;
     warm_lead_threshold := 50;
     weight_email_opens := w1;
     weight_email_clicks := w2;
     weight_website_visits := w3;
     weight_crm_activities := w4;
     weight_deal_stage := w5;
     weight_company_size := w6;
     weight_recency := w7 |}.

(** ** services/hubspot.py: the demo contacts *)

Definition _get_demo_contacts : M (list Lead) :=
  let* now := utcnow in
  ret [
    {| id := "demo-1"; email := "sarah.johnson@techcorp.com";
       first_name := Some "Sarah"; last_name := Some "Johnson";
       name := Some "Sarah Johnson"; company := Some "TechCorp Industries";
       job_title := Some "VP of Engineering"; phone := Some "+1-555-0101";
       company_size := Some 250; deal_stage := Some "opportunity";
       created_at := now - timedelta_of 30 0;
       last_activity := Some (now - timedelta_of 0 2);
       engagement :=
         {| email_opens := 15; email_clicks := 8; website_visits := 12;
            crm_activities := 6;
            last_email_open := Some (now - timedelta_of 0 2);
            last_website_visit := Some (now - timedelta_of 0 4);
            last_crm_activity := Some (now - timedelta_of 1 0) |} |};
    {| id := "demo-2"; email := "michael.chen@startupco.io";
       first_name := Some "Michael"; last_name := Some "Chen";
       name := Some "Michael Chen"; company := Some "StartupCo";
       job_title := Some "CTO"; phone := Some "+1-555-0102";
       company_size := Some 25; deal_stage := Some "qualified";
       created_at := now - timedelta_of 15 0;
       last_activity := Some (now - timedelta_of 7 0);
       engagement :=
         {| email_opens := 3; email_clicks := 1; website_visits := 2;
            crm_activities := 1;
            last_email_open := Some (now - timedelta_of 7 0);
            last_website_visit := Some (now - timedelta_of 10 0);
            last_crm_activity := Some (now - timedelta_of 14 0) |} |};
    {| id := "demo-3"; email := "jennifer.martinez@enterprise.com";
       first_name := Some "Jennifer"; last_name := Some "Martinez";
       name := Some "Jennifer Martinez";
       company := Some "Enterprise Solutions Inc";
       job_title := Some "Director of Sales"; phone := Some "+1-555-0103";
       company_size := Some 5000; deal_stage := Some "opportunity";
       created_at := now - timedelta_of 45 0;
       last_activity := Some (now - timedelta_of 0 1);
       engagement :=
         {| email_opens := 22; email_clicks := 12; website_visits := 18;
            crm_activities := 10;
            last_email_open := Some (now - timedelta_of 0 1);
            last_website_visit := Some (now - timedelta_of 0 3);
            last_crm_activity := Some (now - timedelta_of 0 6) |} |};
    {| id := "demo-4"; email := "david.kim@smallbiz.net";
       first_name := Some "David"; last_name := Some "Kim";
       name := Some "David Kim"; company := Some "Small Business LLC";
       job_title := Some "Owner"; phone := Some "+1-555-0104";
       company_size := Some 5; deal_stage := Some "subscriber";
       created_at := now - timedelta_of 60 0;
       last_activity := Some (now - timedelta_of 30 0);
       engagement :=
         {| email_opens := 1; email_clicks := 0; website_visits := 1;
            crm_activities := 0;
            last_email_open := Some (now - timedelta_of 30 0);
            last_website_visit := Some (now - timedelta_of 45 0);
            last_crm_activity := None |} |};
    {| id := "demo-5"; email := "amanda.williams@growthco.com";
       first_name := Some "Amanda"; last_name := Some "Williams";
       name := Some "Amanda Williams"; company := Some "GrowthCo";
       job_title := Some "Head of Marketing"; phone := Some "+1-555-0105";
       company_size := Some 150; deal_stage := Some "opportunity";
       created_at := now - timedelta_of 20 0;
       last_activity := Some (now - timedelta_of 0 12);
       engagement :=
         {| email_opens := 10; email_clicks := 6; website_visits := 8;
            crm_activities := 4;
            last_email_open := Some (now - timedelta_of 0 12);
            last_website_visit := Some (now - timedelta_of 0 18);
            last_crm_activity := Some (now - timedelta_of 2 0) |} |}
  ].

(** ** services/hubspot.py: get_contacts *)

Record HubSpotClient := {
  hs_settings : Settings;
  api_key : string;
  base_url : string;
  headers : list (string * string)
}.

(** The attributes [HubSpotClient.__init__] sets from the settings. *)
Definition HubSpotClient_of (settings : Settings) : HubSpotClient :=
  {| hs_settings := settings;
     api_key := hubspot_api_key settings;
     base_url := hubspot_api_url settings;
     headers :=
       [("Authorization",
         String.append "Bearer " (hubspot_api_key settings));
        ("Content-Type", "application/json")] |}.

Definition HubSpotClient_init : M HubSpotClient :=
  let* settings := get_settings in
  ret (HubSpotClient_of settings).

(** [await client.get(url, headers=..., params={"limit": limit})] *)
Definition http_get (url : string) (limit : Z) : M Response :=
  let* _ := emit (HttpGet url limit) in
  fun w st => (client_get w url limit, st).

(** [await client.post(url, json=message, timeout=10.0)] *)
Definition http_post (url : string) (message : SlackMessage) : M Response :=
  let* _ := emit (HttpPost url message) in
  fun w st => (client_post w url message, st).

Definition do_raise_for_status (response : Response) : M unit :=
  match raise_for_status response with
  | Some e => raise e
  | None => ret tt
  end.

Fixpoint dict_get (key : string) (items : list (string * json)) : option json :=
  match items with
  | [] => None
  | (k, v) :: rest => if String.eqb k key then Some v else dict_get key rest
  end.

(** [data.get(key, dflt)]: only a dict has [get]. *)
Definition json_get (data : json) (key : string) (dflt : json) : M json :=
  match data with
  | JDict items => ret (default dflt (dict_get key items))
  | _ => raise AttributeError
  end.

(** The elements a [for] loop over a JSON value visits. *)
Definition json_iter (x : json) : M (list json) :=
  match x with
  | JList items => ret items
  | JDict items => ret (map (fun kv => JStr (fst kv)) items)
  | JStr s =>
      ret (map (fun c => JStr (String c EmptyString)) (list_ascii_of_string s))
  | _ => raise TypeError
  end.

Definition parse_contact (contact : json) : M Lead :=
  fun w st => (_parse_contact w contact, st).

Fixpoint parse_contacts_loop (contacts : list json) (leads : list Lead)
    : M (list Lead) :=
  match contacts with
  | [] => ret leads
  | contact :: rest =>
      let* lead := parse_contact contact in
      parse_contacts_loop rest (leads ++ [lead])
  end.

(** The body of the [try] block of [get_contacts]. *)
Definition get_contacts_try (self : HubSpotClient) (limit : Z) : M (list Lead) :=
  let* response :=
    http_get (String.append (base_url self) "/crm/v3/objects/contacts")
      limit in
  let* _ := do_raise_for_status response in
  let* data := lift (response_json response) in
  let* results := json_get data "results" (JList []) in
  let* contacts := json_iter results in
  parse_contacts_loop contacts [].

Definition get_contacts (self : HubSpotClient) (limit : Z) : M (list Lead) :=
  if demo_mode (hs_settings self) then _get_demo_contacts
  else
    try_except (get_contacts_try self limit)
      (fun e =>
         let* _ := emit (LogException
                           "Error fetching contacts from HubSpot" e) in
         ret []).

(** ** services/slack_notifier.py *)

Record SlackNotifier := {
  sn_settings : Settings;
  webhook_url : string;
  channel : string
}.

Definition SlackNotifier_init : M SlackNotifier :=
  let* settings := get_settings in
  ret {| sn_settings := settings;
         webhook_url := slack_webhook_url settings;
         channel := slack_channel settings |}.

(** The [ts] field of both messages is the clock reading. *)
Definition _format_hot_lead_message (self : SlackNotifier)
    (lead_score : LeadScore) : M SlackMessage :=
  let* now := utcnow in
  ret (HotLeadMessage (channel self) lead_score now).

Definition _format_summary_message (self : SlackNotifier)
    (total hot warm : Z) : M SlackMessage :=
  let* now := utcnow in
  ret (SummaryMessage (channel self) total hot warm now).

Definition notify_hot_lead (self : SlackNotifier) (lead_score : LeadScore)
    : M bool :=
  if demo_mode (sn_settings self) then
    let* _ := emit (Log INFO "[DEMO] Would send Slack alert for hot lead") in
    ret true
  else if String.eqb (webhook_url self) EmptyString then
    let* _ := emit (Log WARNING "Slack webhook URL not configured") in
    ret false
  else
    try_except
      (let* message := _format_hot_lead_message self lead_score in
       let* response := http_post (webhook_url self) message in
       let* _ := do_raise_for_status response in
       let* _ := emit (Log INFO "Sent Slack alert for hot lead") in
       ret true)
      (fun e =>
         let* _ := emit (LogException "Failed to send Slack notification" e) in
         ret false).

Definition notify_score_update (self : SlackNotifier)
    (total_leads hot_count warm_count : Z) : M bool :=
  if demo_mode (sn_settings self) then
    let* _ := emit (Log INFO "[DEMO] Would send score update") in
    ret true
  else if String.eqb (webhook_url self) EmptyString then
    ret false
  else
    try_except
      (let* message :=
         _format_summary_message self total_leads hot_count warm_count in
       let* response := http_post (webhook_url self) message in
       let* _ := do_raise_for_status response in
       let* _ := emit (Log INFO "Sent score update summary to Slack") in
       ret true)
      (fun e =>
         let* _ := emit (LogException "Failed to send summary notification" e) in
         ret false).

(** ** main.py: the refresh callback *)

Definition is_hot (sl : LeadScore) : bool :=
  match score_category sl with HOT => true | _ => false end.

Definition is_warm (sl : LeadScore) : bool :=
  match score_category sl with WARM => true | _ => false end.

Fixpoint notify_hot_leads (notifier : SlackNotifier) (hot_leads : list LeadScore)
    : M unit :=
  match hot_leads with
  | [] => ret tt
  | hot_lead :: rest =>
      let* _ := notify_hot_lead notifier hot_lead in
      notify_hot_leads notifier rest
  end.

Definition scheduled_score_refresh : M unit :=
  let* _ := emit (Log INFO "Running scheduled score refresh") in
  try_except
    (let* hubspot := HubSpotClient_init in
     let* scorer := LeadScorer_init in
     let* notifier := SlackNotifier_init in
     let* leads := get_contacts hubspot 100 in
     let* scored_leads := score_leads scorer leads in
     let hot_leads := List.filter is_hot scored_leads in
     let* _ := notify_hot_leads notifier hot_leads in
     let hot_count := Z.of_nat (length hot_leads) in
     let warm_count := Z.of_nat (length (List.filter is_warm scored_leads)) in
     let* _ := notify_score_update notifier
                 (Z.of_nat (length scored_leads)) hot_count warm_count in
     emit (Log INFO "Score refresh complete"))
    (fun e => emit (LogException "Error during scheduled score refresh" e)).

(** The Slack messages among the HTTP requests of a trace. *)
Fixpoint slack_posts (tr : list Event) : list SlackMessage :=
  match tr with
  | [] => []
  | HttpPost _ message :: rest => message :: slack_posts rest
  | _ :: rest => slack_posts rest
  end.

Definition is_hot_lead_message (m : SlackMessage) : bool :=
  match m with HotLeadMessage _ _ _ => true | _ => false end.

(** The URL [get_contacts] requests. *)
Definition contacts_url (self : HubSpotClient) : string :=
  String.append (base_url self) "/crm/v3/objects/contacts".

(** ** Concrete worlds and leads for the examples *)

(** A clock that starts on 2024-01-01T00:00:00 and advances one millisecond
    per reading. *)
Definition example_clock (n : nat) : datetime :=
  1704067200 * 1000000 + Z.of_nat n * 1000.

Definition unreachable_world (env : Settings) : World :=
  {| utc := example_clock;
     env_settings := env;
     client_get := fun _ _ => inl ConnectError;
     client_post := fun _ _ =>
       inr {| raise_for_status := None; response_json := inr JNull |};
     _parse_contact := fun _ => inl KeyError |}.

Definition demo_world : World := unreachable_world default_settings.

Definition initial_state : State :=
  {| tick := 0; settings_cache := None; trace := [] |}.

Definition running_state : State :=
  {| tick := 0; settings_cache := Some default_settings; trace := [] |}.

(** The first demo contact, as [_get_demo_contacts] builds it at the first
    clock reading; a placeholder lead if the list were empty. *)
Definition blank_lead : Lead :=
  {| id := "blank"; email := "blank@example.com"; name := None;
     first_name := None; last_name := None; company := None;
     job_title := None; phone := None; company_size := None;
     deal_stage := None; created_at := 0; last_activity := None;
     engagement :=
       {| email_opens := 0; email_clicks := 0; website_visits := 0;
          crm_activities := 0; last_email_open := None;
          last_website_visit := None; last_crm_activity := None |} |}.

Definition demo_leads : list Lead :=
  match eval _get_demo_contacts demo_world initial_state with
  | inr l => l
  | inl _ => []
  end.

Definition demo_lead (n : nat) : Lead := nth n demo_leads blank_lead.

(** Production settings: not the demo mode, a Slack webhook configured. *)
Definition production_settings : Settings :=
  {| demo_mode := false;
     hubspot_api_key := "key";
     hubspot_api_url := "https://api.hubapi.com";
     slack_webhook_url := "https://hooks.slack.com/services/T/B/X";
     slack_channel := "#sales-alerts";
     score_refresh_interval := 3600;
     hot_lead_threshold := 75;
     warm_lead_threshold := 50;
     weight_email_opens := 0.25;
     weight_email_clicks := 0.20;
     weight_website_visits := 0.20;
     weight_crm_activities := 0.15;
     weight_deal_stage := 0.10;
     weight_company_size := 0.05;
     weight_recency := 0.05 |}.

(** A running production process whose CRM cannot be reached. *)
Definition production_world : World := unreachable_world production_settings.

Definition production_state : State :=
  {| tick := 0; settings_cache := Some production_settings; trace := [] |}.

Definition production_client : HubSpotClient :=
  HubSpotClient_of production_settings.

(** A scorer over the default thresholds that weighs email opens 0.74996
    and email clicks 0.25004 (the weights sum to 1). *)
Definition opens_heavy_scorer : LeadScorer :=
  {| settings := settings_with_weights 0.74996 0.25004 0 0 0 0 0;
     weights := Build_Weights 0.74996 0.25004 0 0 0 0 0 |}.

(** ** Further definitions for the scorer *)

Definition with_deal_stage (l : Lead) (s : option string) : Lead :=
  {| id := id l; email := email l; name := name l; first_name := first_name l;
     last_name := last_name l; company := company l; job_title := job_title l;
     phone := phone l; company_size := company_size l;
     deal_stage := s; created_at := created_at l;
     last_activity := last_activity l; engagement := engagement l |}.

Definition with_company_size (l : Lead) (n : option Z) : Lead :=
  {| id := id l; email := email l; name := name l; first_name := first_name l;
     last_name := last_name l; company := company l; job_title := job_title l;
     phone := phone l; company_size := n;
     deal_stage := deal_stage l; created_at := created_at l;
     last_activity := last_activity l; engagement := engagement l |}.

(** [str.upper()] on ASCII. *)
Definition upper_ascii (c : ascii) : ascii :=
  let n := nat_of_ascii c in
  if ((97 <=? n) && (n <=? 122))%nat then ascii_of_nat (n - 32) else c.

Fixpoint upper (s : string) : string :=
  match s with
  | EmptyString => EmptyString
  | String c s' => String (upper_ascii c) (upper s')
  end.


(** The six values of [stage_scores]. *)
Definition stage_values : list Q :=
  [0.2%Q; 0.3%Q; 0.5%Q; 0.6%Q; 0.8%Q; 1.0%Q].


(** ** services/hubspot.py: _parse_company_size *)

(** The exceptions of the built-ins used here: [int()] raises [ValueError],
    indexing a list out of range raises [IndexError]. *)
Inductive builtin_error := IntValueError | ListIndexError.

(** [str.isspace] on ASCII: tab, newline, vertical tab, form feed, carriage
    return, the four separators 28 to 31, and the space. *)
Definition is_space (c : ascii) : bool :=
  let n := nat_of_ascii c in
  (((9 <=? n) && (n <=? 13)) || ((28 <=? n) && (n <=? 32)))%nat.

Definition digit_of (c : ascii) : option Z :=
  let n := nat_of_ascii c in
  if ((48 <=? n) && (n <=? 57))%nat then Some (Z.of_nat n - 48) else None.

Fixpoint lstrip (s : string) : string :=
  match s with
  | EmptyString => EmptyString
  | String c s' => if is_space c then lstrip s' else s
  end.

Fixpoint rstrip (s : string) : string :=
  match s with
  | EmptyString => EmptyString
  | String c s' =>
      match rstrip s' with
      | EmptyString => if is_space c then EmptyString else String c EmptyString
      | r => String c r
      end
  end.

(** [str.strip()] *)
Definition strip (s : string) : string := rstrip (lstrip s).

(** The digits of an integer literal: one or more digits, single
    underscores allowed between two digits.  [after_digit] tells whether
    the previous character was a digit. *)
Fixpoint digitpart (acc : Z) (after_digit : bool) (s : string) : option Z :=
  match s with
  | EmptyString => if after_digit then Some acc else None
  | String c s' =>
      match digit_of c with
      | Some d => digitpart (10 * acc + d) true s'
      | None =>
          if Ascii.eqb c "_" && after_digit then digitpart acc false s'
          else None
      end
  end.

(** [int(s)] for a string, base 10: surrounding whitespace, an optional
    sign, then the digits. *)
Definition py_int (s : string) : builtin_error + Z :=
  let t := strip s in
  let r :=
    match t with
    | String "+" rest => digitpart 0 false rest
    | String "-" rest => option_map Z.opp (digitpart 0 false rest)
    | _ => digitpart 0 false t
    end in
  match r with
  | Some n => inr n
  | None => inl IntValueError
  end.

(** ["-" in s] *)
Fixpoint has_hyphen (s : string) : bool :=
  match s with
  | EmptyString => false
  | String c s' => Ascii.eqb c "-" || has_hyphen s'
  end.

(** [s.split("-")] *)
Fixpoint split_hyphen (s : string) : list string :=
  match s with
  | EmptyString => [EmptyString]
  | String c s' =>
      if Ascii.eqb c "-" then EmptyString :: split_hyphen s'
      else
        match split_hyphen s' with
        | first :: others => String c first :: others
        | [] => [String c EmptyString]
        end
  end.

(** [l[i]] *)
Definition list_index {A} (l : list A) (i : nat) : builtin_error + A :=
  match nth_error l i with
  | Some a => inr a
  | None => inl ListIndexError
  end.

(** [except (ValueError, AttributeError)] *)
Definition is_ValueError_or_AttributeError (e : builtin_error) : bool :=
  match e with
  | IntValueError => true
  | ListIndexError => false
  end.

Definition _parse_company_size (size_str : option string)
    : builtin_error + option Z :=
  match size_str with
  | None => inr None
  | Some s =>
      if String.eqb s EmptyString then inr None
      else
        let body :=
          if has_hyphen s then
            match list_index (split_hyphen s) 1 with
            | inr part => py_int part
            | inl e => inl e
            end
          else py_int s in
        match body with
        | inr n => inr (Some n)
        | inl e =>
            if is_ValueError_or_AttributeError e then inr None else inl e
        end
  end.

(** A string of decimal digits only. *)
Fixpoint all_digits (s : string) : bool :=
  match s with
  | EmptyString => true
  | String c s' =>
      match digit_of c with Some _ => all_digits s' | None => false end
  end.

(** The number a string of decimal digits denotes, after the digits [acc]
    read so far. *)
Fixpoint decimal_from (acc : Z) (s : string) : Z :=
  match s with
  | EmptyString => acc
  | String c s' => decimal_from (10 * acc + default 0 (digit_of c)) s'
  end.

Definition decimal (s : string) : Z := decimal_from 0 s.

(** ** Auxiliary definitions for the collaborators *)

(** The HTTP requests of a trace. *)
Definition is_http (ev : Event) : bool :=
  match ev with
  | HttpGet _ _ | HttpPost _ _ => true
  | _ => false
  end.

Definition http_requests (tr : list Event) : list Event :=
  List.filter is_http tr.

(** The leads of the hot-lead alerts among some Slack messages. *)
Fixpoint alerted_leads (msgs : list SlackMessage) : list LeadScore :=
  match msgs with
  | [] => []
  | HotLeadMessage _ ls _ :: rest => ls :: alerted_leads rest
  | SummaryMessage _ _ _ _ _ :: rest => alerted_leads rest
  end.

(** Every way a POST can fail in [w] raises an [Exception]: the request
    itself, or the status check of its response. *)
Definition post_failures_are_exceptions (w : World) : Prop :=
  forall url message,
    match client_post w url message with
    | inl e => is_Exception e = true
    | inr response =>
        match raise_for_status response with
        | Some e => is_Exception e = true
        | None => True
        end
    end.

(** [m] raises no exception that derives from [Exception]. *)
Definition contains_exceptions {A} (m : M A) : Prop :=
  forall w st e, eval m w st = inl e -> is_Exception e = false.

(** [m] leaves the trace and the cached settings as they are, whether it
    returns or raises. *)
Definition quiet {A} (m : M A) : Prop :=
  forall w st,
    trace (exec m w st) = trace st /\
    settings_cache (exec m w st) = settings_cache st.

(** [m] returns, having issued no HTTP request and kept the cache. *)
Definition offline {A} (m : M A) : Prop :=
  forall w st,
    exists a st',
      m w st = (inr a, st') /\
      http_requests (trace st') = http_requests (trace st) /\
      settings_cache st' = settings_cache st.

(** ** api/alerts.py: test_slack_alert *)

(** The lead the test alert is about; [created_at] is filled in by its
    default factory. *)
Definition test_lead (now : datetime) : Lead :=
  {| id := "test-123"; email := "test@example.com";
     name := Some "Test Lead"; first_name := None; last_name := None;
     company := Some "Test Company"; job_title := Some "Test Title";
     phone := None; company_size := None;
     deal_stage := Some "opportunity"; created_at := now;
     last_activity := None;
     engagement :=
       {| email_opens := 10; email_clicks := 5; website_visits := 8;
          crm_activities := 3; last_email_open := None;
          last_website_visit := None; last_crm_activity := None |} |}.

(** [POST /api/alerts/test]; the answer is the pair of [status] and
    [message]. *)
Definition test_slack_alert : M (string * string) :=
  let* settings := get_settings in
  if String.eqb (slack_webhook_url settings) EmptyString then
    raise (HTTPException 400 "Slack webhook URL not configured")
  else
    let* now := utcnow in
    let* test_score := mk_LeadScore (test_lead now) 85.0 HOT ∅ in
    let* notifier := SlackNotifier_init in
    let* success := notify_hot_lead notifier test_score in
    if success then ret ("success", "Test alert sent to Slack")
    else raise (HTTPException 500 "Failed to send test alert").

(** ** api/leads.py *)





Section Api.

(** [str(e)]: the message of an exception, as the library that raised it
    words it. *)
Variable exn_str : exn -> string.






End Api.

(** The scorer [LeadScorer.__init__] builds over the settings [s]. *)
Definition LeadScorer_of (s : Settings) : LeadScorer :=
  {| settings := s;
     weights :=
       {| w_email_opens := weight_email_opens s;
          w_email_clicks := weight_email_clicks s;
          w_website_visits := weight_website_visits s;
          w_crm_activities := weight_crm_activities s;
          w_deal_stage := weight_deal_stage s;
          w_company_size := weight_company_size s;
          w_recency := weight_recency s |} |}.

(** The notifier [SlackNotifier.__init__] builds over the settings [s]. *)
Definition SlackNotifier_of (s : Settings) : SlackNotifier :=
  {| sn_settings := s;
     webhook_url := slack_webhook_url s;
     channel := slack_channel s |}.

(** The score the test alert carries, built at the clock reading [now] and
    stamped at [stamp]. *)
Definition test_score (now stamp : datetime) : LeadScore :=
  {| lead := test_lead now; score := 85.0%Q; score_category := HOT;
     score_breakdown := ∅; calculated_at := stamp |}.


(** ** models/lead.py: the accessors of LeadScore *)

(** How an f-string prints an optional string: [None] as the word. *)
Definition format_optional (o : option string) : string :=
  default "None" o.


Definition LeadScore_email (self : LeadScore) : string := email (lead self).

Definition LeadScore_name (self : LeadScore) : string :=
  let full :=
    String.append (format_optional (first_name (lead self)))
      (String " " (format_optional (last_name (lead self)))) in
  match name (lead self) with
  | Some n => if String.eqb n EmptyString then full else n
  | None => full
  end.

Definition LeadScore_company (self : LeadScore) : option string :=
  company (lead self).

(** ** services/email_tracker.py *)

(** An engagement dict: the tracker builds it with exactly these ten keys
    and integer counts. *)
Record Engagement := {
  total_sent : Z;
  total_opens : Z;
  total_clicks : Z;
  total_replies : Z;
  recent_opens_7d : Z;
  recent_clicks_7d : Z;
  last_open : option datetime;
  last_click : option datetime;
  open_rate : Q;
  click_rate : Q
}.

Definition default_engagement : Engagement :=
  {| total_sent := 0; total_opens := 0; total_clicks := 0;
     total_replies := 0; recent_opens_7d := 0; recent_clicks_7d := 0;
     last_open := None; last_click := None;
     open_rate := 0.0; click_rate := 0.0 |}.

(** [EmailTracker.__init__]: [self._engagement_cache = {}].  The tracker is
    its cache, passed to and returned by its methods. *)
Definition EmailTracker_init : gmap string Engagement := ∅.

Definition get_email_engagement (self : gmap string Engagement)
    (lead_id : string) : Engagement :=
  match self !! lead_id with
  | Some engagement => engagement
  | None => default_engagement
  end.

Definition track_open (self : gmap string Engagement)
    (lead_id email_id : string) : M (gmap string Engagement) :=
  let* _ := emit (Log INFO "Email opened") in
  let engagement := get_email_engagement self lead_id in
  let* now := utcnow in
  let engagement :=
    {| total_sent := total_sent engagement;
       total_opens := total_opens engagement + 1;
       total_clicks := total_clicks engagement;
       total_replies := total_replies engagement;
       recent_opens_7d := recent_opens_7d engagement + 1;
       recent_clicks_7d := recent_clicks_7d engagement;
       last_open := Some now;
       last_click := last_click engagement;
       open_rate := open_rate engagement;
       click_rate := click_rate engagement |} in
  ret (<[lead_id := engagement]> self).

Definition track_click (self : gmap string Engagement)
    (lead_id email_id link_url : string) : M (gmap string Engagement) :=
  let* _ := emit (Log INFO "Email link clicked") in
  let engagement := get_email_engagement self lead_id in
  let* now := utcnow in
  let engagement :=
    {| total_sent := total_sent engagement;
       total_opens := total_opens engagement;
       total_clicks := total_clicks engagement + 1;
       total_replies := total_replies engagement;
       recent_opens_7d := recent_opens_7d engagement;
       recent_clicks_7d := recent_clicks_7d engagement + 1;
       last_open := last_open engagement;
       last_click := Some now;
       open_rate := open_rate engagement;
       click_rate := click_rate engagement |} in
  ret (<[lead_id := engagement]> self).

Definition track_reply (self : gmap string Engagement)
    (lead_id email_id : string) : M (gmap string Engagement) :=
  let* _ := emit (Log INFO "Email replied") in
  let engagement := get_email_engagement self lead_id in
  let engagement :=
    {| total_sent := total_sent engagement;
       total_opens := total_opens engagement;
       total_clicks := total_clicks engagement;
       total_replies := total_replies engagement + 1;
       recent_opens_7d := recent_opens_7d engagement;
       recent_clicks_7d := recent_clicks_7d engagement;
       last_open := last_open engagement;
       last_click := last_click engagement;
       open_rate := open_rate engagement;
       click_rate := click_rate engagement |} in
  ret (<[lead_id := engagement]> self).

Definition with_rates (e : Engagement) (o c : Q) : Engagement :=
  {| total_sent := total_sent e;
     total_opens := total_opens e;
     total_clicks := total_clicks e;
     total_replies := total_replies e;
     recent_opens_7d := recent_opens_7d e;
     recent_clicks_7d := recent_clicks_7d e;
     last_open := last_open e;
     last_click := last_click e;
     open_rate := o;
     click_rate := c |}.

(** On a dict with the ten keys every [.get] finds its key. *)
Definition calculate_rates (engagement : Engagement) : Engagement :=
  let sent := total_sent engagement in
  if sent =? 0 then with_rates engagement 0.0%Q 0.0%Q
  else
    let open_rate := (inject_Z (total_opens engagement) / inject_Z sent)%Q in
    let click_rate := (inject_Z (total_clicks engagement) / inject_Z sent)%Q in
    with_rates engagement (round open_rate 3) (round click_rate 3).

(** The caches a tracker can hold: the empty one, and what the three
    tracking methods make of one. *)
Inductive tracked : gmap string Engagement -> Prop :=
| tracked_init : tracked EmailTracker_init
| tracked_open self lead_id email_id w st self' :
    tracked self ->
    eval (track_open self lead_id email_id) w st = inr self' ->
    tracked self'
| tracked_click self lead_id email_id link_url w st self' :
    tracked self ->
    eval (track_click self lead_id email_id link_url) w st = inr self' ->
    tracked self'
| tracked_reply self lead_id email_id w st self' :
    tracked self ->
    eval (track_reply self lead_id email_id) w st = inr self' ->
    tracked self'.

(** What holds of every engagement a tracker has recorded. *)
Definition well_tracked (e : Engagement) : Prop :=
  total_sent e = 0%Z /\
  recent_opens_7d e = total_opens e /\
  recent_clicks_7d e = total_clicks e /\
  (0 <= total_opens e)%Z /\ (0 <= total_clicks e)%Z /\
  (0 <= total_replies e)%Z /\
  (last_open e = None <-> total_opens e = 0%Z) /\
  (last_click e = None <-> total_clicks e = 0%Z) /\
  open_rate e = 0.0%Q /\ click_rate e = 0.0%Q.

(** ** ml/model.py: the two encoders of ScoringModel *)

Definition stage_map : gmap string Z :=
  <["subscriber" := 20]> (
  <["lead" := 30]> (
  <["marketing_qualified" := 50]> (
  <["qualified" := 60]> (
  <["opportunity" := 80]> (
  <["customer" := 100]> ∅))))).

Definition _encode_deal_stage (stage : option string) : Z :=
  default 30 (stage_map !! lower (default EmptyString stage)).


(** * Properties *)

(** ** Running a computation *)

Lemma eval_ret {A} (a : A) w st : eval (ret a) w st = inr a.
Proof. reflexivity. Qed.

Lemma eval_bind {A B} (m : M A) (k : A -> M B) w st a :
  eval m w st = inr a ->
  eval (bind m k) w st = eval (k a) w (exec m w st).
Proof.
  unfold eval, exec, bind. destruct (m w st) as [[e|a'] st']; simpl; congruence.
Qed.

Lemma exec_bind {A B} (m : M A) (k : A -> M B) w st a :
  eval m w st = inr a ->
  exec (bind m k) w st = exec (k a) w (exec m w st).
Proof.
  unfold eval, exec, bind. destruct (m w st) as [[e|a'] st']; simpl; congruence.
Qed.

Lemma eval_bind_raise {A B} (m : M A) (k : A -> M B) w st e :
  eval m w st = inl e ->
  eval (bind m k) w st = inl e /\ exec (bind m k) w st = exec m w st.
Proof.
  unfold eval, exec, bind. destruct (m w st) as [[e'|a'] st']; simpl;
    intros; split; congruence.
Qed.

(** ** Rational arithmetic used by the scorers *)

Section QFacts.

Open Scope Q_scope.

Lemma inject_Z_div_nonneg (n : Z) (d : Q) :
  (0 <= n)%Z -> 0 < d -> 0 <= inject_Z n / d.
Proof.
  intros Hn Hd. apply Qle_shift_div_l; [exact Hd|].
  rewrite Qmult_0_l. change 0 with (inject_Z 0). now rewrite <- Zle_Qle.
Qed.

Lemma inject_Z_div_mono (n n' : Z) (d : Q) :
  (n <= n')%Z -> 0 < d -> inject_Z n / d <= inject_Z n' / d.
Proof.
  intros Hn Hd. unfold Qdiv. apply Qmult_le_compat_r.
  - now rewrite <- Zle_Qle.
  - apply Qlt_le_weak, Qinv_lt_0_compat, Hd.
Qed.

Lemma Qmin_1_nonneg (x : Q) : 0 <= x -> 0 <= Qmin 1.0 x.
Proof. intros Hx. apply Q.min_glb; [lra | exact Hx]. Qed.

Lemma Qmin_1_le (x : Q) : Qmin 1.0 x <= 1.
Proof. eapply Qle_trans; [apply Q.le_min_l | lra]. Qed.

Lemma Qmin_1_mono (x y : Q) : x <= y -> Qmin 1.0 x <= Qmin 1.0 y.
Proof. intros H. now apply Q.min_le_compat_l. Qed.

Lemma boosted_range n d b :
  (0 <= n)%Z -> 0 < d -> 0 <= b -> 0 <= boosted n d b <= 1.
Proof.
  intros Hn Hd Hb. unfold boosted. split; [|apply Qmin_1_le].
  apply Qmin_1_nonneg, Qmult_le_0_compat; [|exact Hb].
  apply Qmin_1_nonneg, inject_Z_div_nonneg; assumption.
Qed.

Lemma boosted_mono n n' d b :
  (n <= n')%Z -> 0 < d -> 0 <= b -> boosted n d b <= boosted n' d b.
Proof.
  intros Hn Hd Hb. unfold boosted.
  apply Qmin_1_mono, Qmult_le_compat_r; [|exact Hb].
  apply Qmin_1_mono, inject_Z_div_mono; assumption.
Qed.

Lemma boosted_nonpos n d b :
  (n <= 0)%Z -> 0 < d -> 0 <= b -> boosted n d b <= 0.
Proof.
  intros Hn Hd Hb. unfold boosted.
  eapply Qle_trans; [apply Q.le_min_r|].
  assert (H : Qmin 1.0 (inject_Z n / d) <= 0).
  { eapply Qle_trans; [apply Q.le_min_r|].
    apply Qle_shift_div_r; [exact Hd|]. rewrite Qmult_0_l.
    change 0 with (inject_Z 0). now rewrite <- Zle_Qle. }
  apply Qle_trans with (0 * b); [now apply Qmult_le_compat_r | lra].
Qed.

End QFacts.

(** ** The feature scorers, run *)

Section ScorerRuns.

Open Scope Q_scope.

Variables (w : World) (st : State).

Lemma run_score_email_opens lead :
  eval (_score_email_opens lead) w st =
  inr (if (email_opens (engagement lead) =? 0)%Z then 0.0
       else boosted (email_opens (engagement lead)) 10
              (opens_boost (utc w (tick st))
                 (last_email_open (engagement lead)))).
Proof.
  unfold _score_email_opens, opens_boost.
  destruct (email_opens (engagement lead) =? 0)%Z; [reflexivity|].
  destruct (last_email_open (engagement lead)); reflexivity.
Qed.

Lemma run_score_website_visits lead :
  eval (_score_website_visits lead) w st =
  inr (if (website_visits (engagement lead) =? 0)%Z then 0.0
       else boosted (website_visits (engagement lead)) 8
              (visits_boost (utc w (tick st))
                 (last_website_visit (engagement lead)))).
Proof.
  unfold _score_website_visits, visits_boost.
  destruct (website_visits (engagement lead) =? 0)%Z; [reflexivity|].
  destruct (last_website_visit (engagement lead)); reflexivity.
Qed.

Lemma run_score_recency lead :
  eval (_score_recency lead) w st =
  inr match last_activity lead with
      | None => 0.0
      | Some last => recency_step (timedelta_days (utc w (tick st) - last)%Z)
      end.
Proof.
  unfold _score_recency, recency_step.
  destruct (last_activity lead); reflexivity.
Qed.

End ScorerRuns.

Section ScorerFacts.

Open Scope Q_scope.

Lemma opens_boost_pos now last : 0 <= opens_boost now last.
Proof.
  unfold opens_boost. destruct last as [l|]; [|lra].
  cbv zeta. repeat case_match; lra.
Qed.

Lemma visits_boost_pos now last : 0 <= visits_boost now last.
Proof.
  unfold visits_boost. destruct last as [l|]; [|lra].
  cbv zeta. repeat case_match; lra.
Qed.







End ScorerFacts.

(** ** Feature scorers: range, monotonicity, recency *)

Section FeatureScorers.

Open Scope Q_scope.



(** C7. Raising one engagement count, every other field of the lead and
    the clock being the same, never lowers the sub-score of that count's
    scorer: email opens, email clicks, website visits, CRM activities. *)
Theorem engagement_scores_monotone (lead : Lead) (w : World) (st : State)
    (n n' : Z) :
  (n <= n')%Z ->
  (exists v v',
      eval (_score_email_opens (with_email_opens lead n)) w st = inr v /\
      eval (_score_email_opens (with_email_opens lead n')) w st = inr v' /\
      v <= v') /\
  _score_email_clicks (with_email_clicks lead n)
    <= _score_email_clicks (with_email_clicks lead n') /\
  (exists v v',
      eval (_score_website_visits (with_website_visits lead n)) w st = inr v /\
      eval (_score_website_visits (with_website_visits lead n')) w st = inr v' /\
      v <= v') /\
  _score_crm_activities (with_crm_activities lead n)
    <= _score_crm_activities (with_crm_activities lead n').
Proof.
  intros Hn. repeat apply conj.
  - do 2 eexists. rewrite !run_score_email_opens. simpl.
    split; [reflexivity|]. split; [reflexivity|].
    pose proof (opens_boost_pos (utc w (tick st))
                  (last_email_open (engagement lead))) as Hb.
    destruct (Z.eqb_spec n 0) as [->|Hn0];
      destruct (Z.eqb_spec n' 0) as [->|Hn'0].
    + lra.
    + pose proof (boosted_range n' _ _ ltac:(lia) (eq_refl : 0 < 10) Hb).
      lra.
    + pose proof (boosted_nonpos n _ _ ltac:(lia) (eq_refl : 0 < 10) Hb).
      lra.
    + apply boosted_mono; [exact Hn | lra | exact Hb].
  - apply Qmin_1_mono, inject_Z_div_mono; [exact Hn | lra].
  - do 2 eexists. rewrite !run_score_website_visits. simpl.
    split; [reflexivity|]. split; [reflexivity|].
    pose proof (visits_boost_pos (utc w (tick st))
                  (last_website_visit (engagement lead))) as Hb.
    destruct (Z.eqb_spec n 0) as [->|Hn0];
      destruct (Z.eqb_spec n' 0) as [->|Hn'0].
    + lra.
    + pose proof (boosted_range n' _ _ ltac:(lia) (eq_refl : 0 < 8) Hb).
      lra.
    + pose proof (boosted_nonpos n _ _ ltac:(lia) (eq_refl : 0 < 8) Hb).
      lra.
    + apply boosted_mono; [exact Hn | lra | exact Hb].
  - apply Qmin_1_mono, inject_Z_div_mono; [exact Hn | lra].
Qed.

Lemma engagement_scores_monotone_witness :
  (exists v v',
      eval (_score_email_opens (with_email_opens (demo_lead 1) 3))
        demo_world initial_state = inr v /\
      eval (_score_email_opens (with_email_opens (demo_lead 1) 4))
        demo_world initial_state = inr v' /\
      v <= v') /\
  _score_email_clicks (with_email_clicks (demo_lead 1) 3)
    <= _score_email_clicks (with_email_clicks (demo_lead 1) 4) /\
  (exists v v',
      eval (_score_website_visits (with_website_visits (demo_lead 1) 3))
        demo_world initial_state = inr v /\
      eval (_score_website_visits (with_website_visits (demo_lead 1) 4))
        demo_world initial_state = inr v' /\
      v <= v') /\
  _score_crm_activities (with_crm_activities (demo_lead 1) 3)
    <= _score_crm_activities (with_crm_activities (demo_lead 1) 4).
Proof.
  apply (engagement_scores_monotone (demo_lead 1) demo_world initial_state
           3 4). lia.
Defined.



(** C4. With [warm_lead_threshold < hot_lead_threshold], the categorizer
    answers HOT when the score is at least the hot threshold, otherwise
    WARM when it is at least the warm threshold, otherwise COLD; a score
    equal to the hot threshold is HOT, one equal to the warm threshold is
    WARM, and one unit below the warm threshold is COLD. *)
Theorem categorize_score_inclusive (self : LeadScorer) (score : Q) :
  let hot := hot_lead_threshold (settings self) in
  let warm := warm_lead_threshold (settings self) in
  (warm < hot)%Z ->
  (inject_Z hot <= score -> _categorize_score self score = HOT) /\
  (inject_Z warm <= score -> score < inject_Z hot ->
   _categorize_score self score = WARM) /\
  (score < inject_Z warm -> _categorize_score self score = COLD) /\
  _categorize_score self (inject_Z hot) = HOT /\
  _categorize_score self (inject_Z warm) = WARM /\
  _categorize_score self (inject_Z (warm - 1)) = COLD.
Proof.
  intros hot warm Hwh.
  assert (Hq : inject_Z warm < inject_Z hot) by now rewrite <- Zlt_Qlt.
  assert (Hcat : forall s,
    (inject_Z hot <= s -> _categorize_score self s = HOT) /\
    (inject_Z warm <= s -> s < inject_Z hot ->
     _categorize_score self s = WARM) /\
    (s < inject_Z warm -> _categorize_score self s = COLD)).
  { intros s. unfold _categorize_score. fold hot warm.
    destruct (Qle_bool (inject_Z hot) s) eqn:Eh.
    - apply Qle_bool_iff in Eh.
      repeat apply conj; intros; [reflexivity | lra | lra].
    - assert (Hlt : s < inject_Z hot).
      { apply Qnot_le_lt. intros C. apply Qle_bool_iff in C. congruence. }
      destruct (Qle_bool (inject_Z warm) s) eqn:Ew.
      + apply Qle_bool_iff in Ew.
        repeat apply conj; intros; [lra | reflexivity | lra].
      + assert (Hlt' : s < inject_Z warm).
        { apply Qnot_le_lt. intros C. apply Qle_bool_iff in C. congruence. }
        repeat apply conj; intros; [lra | lra | reflexivity]. }
  destruct (Hcat score) as (H1 & H2 & H3).
  repeat apply conj; try assumption.
  - apply Hcat. lra.
  - apply Hcat; lra.
  - apply Hcat. rewrite <- Zlt_Qlt. lia.
Qed.

Lemma categorize_score_inclusive_witness :
  let self := {| settings := default_settings;
                 weights := Build_Weights 0.25 0.20 0.20 0.15 0.10 0.05 0.05 |} in
  _categorize_score self 75 = HOT /\
  _categorize_score self 50 = WARM /\
  _categorize_score self 49 = COLD.
Proof.
  intros self.
  assert (Hlt : (50 < 75)%Z) by lia.
  destruct (categorize_score_inclusive self 60 Hlt)
    as (_ & _ & _ & Hh & Hw & Hc).
  split; [exact Hh | split; [exact Hw | exact Hc]].
Defined.

(** Fifteen opens, the last one two hours ago: the boosted value 1.5 is cut
    back to 1. *)
Example boosted_opens_are_clamped :
  exists v,
    eval (_score_email_opens (demo_lead 0)) demo_world initial_state = inr v /\
    v == 1.
Proof. eexists. split; [vm_compute; reflexivity | reflexivity]. Qed.

(** The counts have to be non-negative for the range to hold: minus five
    opens, recently, score -0.75. *)
Example negative_opens_score_below_zero :
  exists v,
    eval (_score_email_opens (with_email_opens (demo_lead 0) (-5)))
      demo_world initial_state = inr v /\
    v == - (3 # 4).
Proof. eexists. split; [vm_compute; reflexivity | reflexivity]. Qed.

End FeatureScorers.

(** ** Rounding *)

Section Rounding.

Open Scope Q_scope.

Lemma round_half_even_cases (y : Q) :
  let f := Qfloor y in
  (round_half_even y = f /\ y - inject_Z f <= 1 # 2) \/
  (round_half_even y = (f + 1)%Z /\ 1 # 2 <= y - inject_Z f).
Proof.
  intros f. unfold round_half_even. fold f.
  destruct (y - inject_Z f ?= 1 # 2) eqn:E.
  - apply Qeq_alt in E. destruct (Z.even f); [left | right]; split;
      try reflexivity; lra.
  - apply Qlt_alt in E. left. split; [reflexivity | lra].
  - apply Qgt_alt in E. right. split; [reflexivity | lra].
Qed.


Lemma round_half_even_near (y : Q) :
  Qabs (inject_Z (round_half_even y) - y) <= 1 # 2.
Proof.
  pose proof (Qfloor_le y) as Hl. pose proof (Qlt_floor y) as Hu.
  rewrite inject_Z_plus in Hu. change (inject_Z 1) with 1 in Hu.
  apply Qabs_Qle_condition.
  destruct (round_half_even_cases y) as [[-> H]|[-> H]].
  - split; lra.
  - rewrite inject_Z_plus. change (inject_Z 1) with 1. split; lra.
Qed.

Lemma round_half_even_between (a b : Z) (y : Q) :
  inject_Z a <= y -> y <= inject_Z b ->
  (a <= round_half_even y <= b)%Z.
Proof.
  intros Ha Hb.
  pose proof (Qfloor_le y) as Hl. pose proof (Qlt_floor y) as Hu.
  assert (Haf : (a <= Qfloor y)%Z).
  { rewrite <- (Qfloor_Z a). now apply Qfloor_resp_le. }
  destruct (round_half_even_cases y) as [[-> H]|[-> H]].
  - split; [exact Haf|]. rewrite Zle_Qle. lra.
  - split; [lia|].
    assert (Hlt : inject_Z (Qfloor y) < inject_Z b) by lra.
    rewrite <- Zlt_Qlt in Hlt. lia.
Qed.


Lemma round_2_range (x : Q) : 0 <= x <= 100 -> 0 <= round x 2 <= 100.
Proof.
  intros [H0 H1]. unfold round. change (inject_Z (10 ^ 2)) with 100.
  destruct (round_half_even_between 0 10000 (x * 100)) as [Ha Hb].
  - change (inject_Z 0) with 0. lra.
  - change (inject_Z 10000) with 10000. lra.
  - rewrite Zle_Qle in Ha, Hb.
    change (inject_Z 0) with 0 in Ha.
    change (inject_Z 10000) with 10000 in Hb.
    split.
    + apply Qle_shift_div_l; lra.
    + apply Qle_shift_div_r; lra.
Qed.


Lemma clamp_range (lo hi x : Q) : lo <= hi -> lo <= clamp lo hi x <= hi.
Proof.
  intros H. unfold clamp. split.
  - apply Q.min_glb; [exact H | apply Q.le_max_l].
  - apply Q.le_min_l.
Qed.

End Rounding.

(** ** score_lead *)

Section ScoreLead.

Open Scope Q_scope.

Lemma run_mk_LeadScore l s c b w st :
  0 <= s <= 100 ->
  eval (mk_LeadScore l s c b) w st =
  inr {| lead := l; score := s; score_category := c;
         score_breakdown := b; calculated_at := utc w (tick st) |}.
Proof.
  intros [H0 H1]. unfold mk_LeadScore.
  apply Qle_bool_iff in H0, H1. rewrite H0, H1. reflexivity.
Qed.

(** [score_lead], run: the three scorers that read the clock are called
    in the states [st], [st1], [st2]. *)
Lemma run_score_lead self l w st s1 s3 s7 :
  let st1 := exec (_score_email_opens l) w st in
  let st2 := exec (_score_website_visits l) w st1 in
  let st3 := exec (_score_recency l) w st2 in
  eval (_score_email_opens l) w st = inr s1 ->
  eval (_score_website_visits l) w st1 = inr s3 ->
  eval (_score_recency l) w st2 = inr s7 ->
  let final_score :=
    Qmin 100.0 (Qmax 0.0
      ((0.0 + s1 * w_email_opens (weights self)
        + _score_email_clicks l * w_email_clicks (weights self)
        + s3 * w_website_visits (weights self)
        + _score_crm_activities l * w_crm_activities (weights self)
        + _score_deal_stage l * w_deal_stage (weights self)
        + _score_company_size l * w_company_size (weights self)
        + s7 * w_recency (weights self)) * 100)) in
  eval (score_lead self l) w st =
  inr {| lead := l;
         score := round final_score 2;
         score_category := _categorize_score self final_score;
         score_breakdown :=
           <["recency" := s7]> (
           <["company_size" := _score_company_size l]> (
           <["deal_stage" := _score_deal_stage l]> (
           <["crm_activities" := _score_crm_activities l]> (
           <["website_visits" := s3]> (
           <["email_clicks" := _score_email_clicks l]> (
           <["email_opens" := s1]> ∅))))));
         calculated_at := utc w (tick st3) |}.
Proof.
  intros st1 st2 st3 H1 H3 H7 final_score. unfold score_lead.
  rewrite (eval_bind _ _ _ _ _ H1). cbv zeta. fold st1.
  rewrite (eval_bind _ _ _ _ _ H3). fold st2.
  rewrite (eval_bind _ _ _ _ _ H7). fold st3.
  apply run_mk_LeadScore, round_2_range.
  pose proof (clamp_range 0.0 100.0
    ((0.0 + s1 * w_email_opens (weights self)
        + _score_email_clicks l * w_email_clicks (weights self)
        + s3 * w_website_visits (weights self)
        + _score_crm_activities l * w_crm_activities (weights self)
        + _score_deal_stage l * w_deal_stage (weights self)
        + _score_company_size l * w_company_size (weights self)
        + s7 * w_recency (weights self)) * 100) ltac:(lra)) as H.
  unfold clamp in H. destruct H as [Ha Hb]. subst final_score.
  split; [eapply Qle_trans; [|exact Ha] | eapply Qle_trans; [exact Hb|]];
    lra.
Qed.

Lemma scorers_return l w st :
  exists s1 s3 s7,
    eval (_score_email_opens l) w st = inr s1 /\
    eval (_score_website_visits l) w
      (exec (_score_email_opens l) w st) = inr s3 /\
    eval (_score_recency l) w
      (exec (_score_website_visits l) w
         (exec (_score_email_opens l) w st)) = inr s7.
Proof.
  do 3 eexists. repeat apply conj.
  - apply run_score_email_opens.
  - apply run_score_website_visits.
  - apply run_score_recency.
Qed.



(** The tier is taken from the clamped score before it is rounded: a lead
    with ten recent opens and no clicks reaches 74.996 under
    [opens_heavy_scorer], which is WARM, and is reported with score 75. *)
Example tier_is_taken_before_rounding :
  exists ls,
    eval (score_lead opens_heavy_scorer (with_email_clicks (demo_lead 0) 0))
      demo_world initial_state = inr ls /\
    score ls == 75 /\ score_category ls = WARM.
Proof. eexists. split; [vm_compute; reflexivity|]. split; reflexivity. Qed.

End ScoreLead.

(** ** Sorting in descending order, stably *)

Section SortReverse.

Context {A : Type} (key : A -> Q).

Open Scope Q_scope.

Lemma insert_reverse_perm x l : Permutation (insert_reverse key x l) (x :: l).
Proof.
  induction l as [|y l IH]; simpl; [reflexivity|].
  destruct (Qle_bool (key y) (key x)); [reflexivity|].
  rewrite IH. apply perm_swap.
Qed.


Lemma insert_reverse_descending x l :
  descending key l -> descending key (insert_reverse key x l).
Proof.
  unfold descending. induction l as [|y l IH]; intros Hs; simpl.
  - repeat constructor.
  - apply StronglySorted_inv in Hs as [Hs Hy].
    destruct (Qle_bool (key y) (key x)) eqn:E.
    + apply Qle_bool_iff in E. constructor.
      * now constructor.
      * constructor; [exact E|].
        eapply List.Forall_impl; [|exact Hy].
        intros a Ha. simpl in Ha. lra.
    + assert (Hlt : key x < key y).
      { apply Qnot_le_lt. intros C. apply Qle_bool_iff in C. congruence. }
      constructor; [now apply IH|].
      eapply Permutation_Forall; [symmetry; apply insert_reverse_perm|].
      constructor; [lra | exact Hy].
Qed.

Lemma sort_reverse_descending l : descending key (sort_reverse key l).
Proof.
  induction l as [|x l IH]; simpl.
  - constructor.
  - now apply insert_reverse_descending.
Qed.

Lemma insert_reverse_with_key q x l :
  with_key key q (insert_reverse key x l) = with_key key q (x :: l).
Proof.
  unfold with_key. induction l as [|y l IH]; simpl; [reflexivity|].
  destruct (Qle_bool (key y) (key x)) eqn:E; [reflexivity|].
  simpl. rewrite IH. simpl.
  destruct (Qeq_bool (key x) q) eqn:Ex; [|reflexivity].
  destruct (Qeq_bool (key y) q) eqn:Ey; [|reflexivity].
  exfalso. apply Qeq_bool_iff in Ex, Ey.
  apply not_true_iff_false in E. apply E, Qle_bool_iff.
  rewrite Ex, Ey. apply Qle_refl.
Qed.

Lemma sort_reverse_with_key q l :
  with_key key q (sort_reverse key l) = with_key key q l.
Proof.
  induction l as [|x l IH]; simpl; [reflexivity|].
  rewrite insert_reverse_with_key. unfold with_key in *. simpl.
  now rewrite IH.
Qed.

Lemma in_with_key y l : In y l -> In y (with_key key (key y) l).
Proof.
  intros H. unfold with_key. apply List.filter_In. split; [exact H|].
  apply Qeq_bool_iff. reflexivity.
Qed.

Lemma with_key_in y q l : In y (with_key key q l) -> In y l /\ key y == q.
Proof.
  unfold with_key. intros H. apply List.filter_In in H as [H E].
  split; [exact H | now apply Qeq_bool_iff].
Qed.

Lemma descending_head x l y :
  descending key (x :: l) -> In y (x :: l) -> key y <= key x.
Proof.
  intros Hs [->|Hy]; [apply Qle_refl|].
  apply StronglySorted_inv in Hs as [_ Hx].
  rewrite List.Forall_forall in Hx. now apply Hx.
Qed.

(** A list has at most one arrangement that is descending and keeps the
    elements of each key in their order: what [list.sort] returns is
    fixed by its being a stable sort, whatever algorithm it runs. *)
Lemma descending_stable_unique r1 : forall r2,
  descending key r1 -> descending key r2 ->
  (forall q, with_key key q r1 = with_key key q r2) ->
  r1 = r2.
Proof.
  induction r1 as [|x r1 IH]; intros r2 H1 H2 Hk.
  - destruct r2 as [|y r2]; [reflexivity|].
    pose proof (in_with_key y (y :: r2) (or_introl eq_refl)) as Hy.
    rewrite <- Hk in Hy. destruct Hy.
  - destruct r2 as [|y r2].
    { pose proof (in_with_key x (x :: r1) (or_introl eq_refl)) as Hx.
      rewrite Hk in Hx. destruct Hx. }
    assert (Hxy : key x == key y).
    { apply Qle_antisym.
      - pose proof (in_with_key x (x :: r1) (or_introl eq_refl)) as Hx.
        rewrite Hk in Hx. apply with_key_in in Hx as [Hx _].
        apply (descending_head y r2 x H2 Hx).
      - pose proof (in_with_key y (y :: r2) (or_introl eq_refl)) as Hy.
        rewrite <- Hk in Hy. apply with_key_in in Hy as [Hy _].
        apply (descending_head x r1 y H1 Hy). }
    assert (Hx : Qeq_bool (key x) (key x) = true)
      by (apply Qeq_bool_iff; reflexivity).
    assert (Hy : Qeq_bool (key y) (key x) = true)
      by (apply Qeq_bool_iff; now symmetry).
    pose proof (Hk (key x)) as Hh. unfold with_key in Hh. simpl in Hh.
    rewrite Hx, Hy in Hh. inversion Hh as [[Hhd Htl]]. subst y.
    f_equal. apply IH.
    + now apply StronglySorted_inv in H1 as [H1 _].
    + now apply StronglySorted_inv in H2 as [H2 _].
    + intros q. pose proof (Hk q) as Hq. unfold with_key in *. simpl in Hq.
      destruct (Qeq_bool (key x) q); [now inversion Hq | exact Hq].
Qed.

Lemma sort_reverse_unique l r :
  descending key r ->
  (forall q, with_key key q r = with_key key q l) ->
  r = sort_reverse key l.
Proof.
  intros Hs Hk. apply descending_stable_unique.
  - exact Hs.
  - apply sort_reverse_descending.
  - intros q. now rewrite sort_reverse_with_key.
Qed.

End SortReverse.

(** ** score_leads *)

Section ScoreLeads.

Open Scope Q_scope.

Lemma score_lead_returns self l w st :
  exists ls, eval (score_lead self l) w st = inr ls /\ lead ls = l.
Proof.
  destruct (scorers_return l w st) as (s1 & s3 & s7 & H1 & H3 & H7).
  eexists. split; [apply (run_score_lead self l w st s1 s3 s7 H1 H3 H7)|].
  reflexivity.
Qed.

Lemma run_score_leads_loop self w leads : forall acc st,
  exists scored,
    eval (score_leads_loop self leads acc) w st = inr (acc ++ scored) /\
    scored_from self w leads scored.
Proof.
  induction leads as [|l leads IH]; intros acc st; simpl.
  - exists []. rewrite app_nil_r. split; [reflexivity | constructor].
  - destruct (score_lead_returns self l w st) as (ls & Hls & Hl).
    rewrite (eval_bind _ _ _ _ _ Hls).
    destruct (IH (acc ++ [ls]) (exec (score_lead self l) w st))
      as (scored & Hrun & Hsc).
    exists (ls :: scored). rewrite Hrun, <- app_assoc. split; [reflexivity|].
    constructor; [|exact Hsc]. split; [exact Hl | eauto].
Qed.


End ScoreLeads.

(** ** Configuration: weights and thresholds *)

Section Configuration.

Open Scope Q_scope.

Lemma run_validate_weights_bad s w st :
  ~ weights_valid s ->
  validate_weights s w st =
  (inl (ValueError "Feature weights must sum to 1.0"), st).
Proof.
  intros H. unfold validate_weights.
  destruct (Qle_bool (Qabs (weights_total s - 1.0)) 0.001) eqn:E;
    [|reflexivity].
  exfalso. apply H. apply Qle_bool_iff in E. unfold weights_valid.
  assert (Ea : Qabs (weights_total s - 1) == Qabs (weights_total s - 1.0)).
  { apply Qabs_wd. lra. }
  rewrite Ea. lra.
Qed.

Lemma run_validate_weights_ok s w st :
  weights_valid s -> validate_weights s w st = (inr tt, st).
Proof.
  intros H. unfold validate_weights.
  destruct (Qle_bool (Qabs (weights_total s - 1.0)) 0.001) eqn:E;
    [reflexivity|].
  exfalso. apply not_true_iff_false in E. apply E, Qle_bool_iff.
  unfold weights_valid in H.
  assert (Ea : Qabs (weights_total s - 1) == Qabs (weights_total s - 1.0)).
  { apply Qabs_wd. lra. }
  rewrite <- Ea. lra.
Qed.

Lemma weights_valid_dec s : weights_valid s \/ ~ weights_valid s.
Proof.
  unfold weights_valid.
  destruct (Qlt_le_dec (1 # 1000) (Qabs (weights_total s - 1))) as [H|H].
  - right. lra.
  - left. exact H.
Qed.

Lemma run_get_settings_cached s w st :
  settings_cache st = Some s -> get_settings w st = (inr s, st).
Proof.
  intros H. unfold get_settings, bind, get_cache. rewrite H. reflexivity.
Qed.

Lemma run_get_settings_fresh_bad w st :
  settings_cache st = None -> ~ weights_valid (env_settings w) ->
  get_settings w st =
  (inl (ValueError "Feature weights must sum to 1.0"), st).
Proof.
  intros Hc Hbad. unfold get_settings, bind, get_cache, ask.
  rewrite Hc, (run_validate_weights_bad _ w st Hbad). reflexivity.
Qed.

Lemma run_get_settings_fresh_ok w st :
  settings_cache st = None -> weights_valid (env_settings w) ->
  get_settings w st =
  (inr (env_settings w),
   {| tick := tick st; settings_cache := Some (env_settings w);
      trace := trace st |}).
Proof.
  intros Hc Hok. unfold get_settings, bind, get_cache, ask.
  rewrite Hc, (run_validate_weights_ok _ w st Hok). reflexivity.
Qed.

(** What [get_settings] returns is what it leaves cached, and its weights
    are valid whenever those of the cache were. *)
Lemma get_settings_returns w st s :
  eval get_settings w st = inr s ->
  settings_cache (exec get_settings w st) = Some s /\
  (cache_valid st -> weights_valid s).
Proof.
  unfold eval, exec. intros H.
  destruct (settings_cache st) as [s0|] eqn:Hc.
  - rewrite (run_get_settings_cached s0 w st Hc) in *. simpl in *.
    inversion H; subst. split; [exact Hc | intros Hv; apply Hv, Hc].
  - destruct (weights_valid_dec (env_settings w)) as [Hok|Hbad].
    + rewrite (run_get_settings_fresh_ok w st Hc Hok) in *. simpl in *.
      inversion H; subst. auto.
    + rewrite (run_get_settings_fresh_bad w st Hc Hbad) in H. discriminate.
Qed.

Lemma cache_valid_initial : cache_valid initial_state.
Proof. intros s H. discriminate. Qed.

Lemma get_settings_keeps_cache_valid w st :
  cache_valid st -> cache_valid (exec get_settings w st).
Proof.
  intros Hv. unfold exec.
  destruct (settings_cache st) as [s0|] eqn:Hc.
  - now rewrite (run_get_settings_cached s0 w st Hc).
  - destruct (weights_valid_dec (env_settings w)) as [Hok|Hbad].
    + rewrite (run_get_settings_fresh_ok w st Hc Hok). simpl.
      intros s Hs. simpl in Hs. congruence.
    + now rewrite (run_get_settings_fresh_bad w st Hc Hbad).
Qed.

Lemma post_alerts_config_keeps_cache_valid hot warm slack w st :
  cache_valid st ->
  cache_valid (exec (post_alerts_config hot warm slack) w st).
Proof.
  intros Hv. unfold exec, post_alerts_config, bind, AlertConfig_validate.
  destruct (_ && _); simpl; [|exact Hv].
  unfold update_alert_config, bind.
  pose proof (get_settings_keeps_cache_valid w st Hv) as Hv'.
  pose proof (get_settings_returns w st) as Hr.
  unfold exec, eval in Hv', Hr.
  destruct (get_settings w st) as [[e|s] st']; simpl in *; [exact Hv'|].
  destruct (warm >=? hot)%Z; simpl; [exact Hv'|].
  intros s' Hs'. simpl in Hs'. inversion Hs'; subst.
  destruct (Hr s eq_refl) as [_ Hs]. apply Hs, Hv.
Qed.

(** C5. In a process that has not loaded its settings yet, constructing a
    scorer when the configured feature weights sum to something further
    than 0.001 from 1.0 raises [ValueError] and changes nothing, so that
    no lead is scored; and whenever the constructor does return, the
    scorer's weights are the configured ones as they are, and their sum
    is within 0.001 of 1.0. *)
Theorem scorer_construction_validates_weights (w : World) (st : State) :
  (settings_cache st = None ->
   1 # 1000 < Qabs (weights_total (env_settings w) - 1) ->
   (exists msg, eval LeadScorer_init w st = inl (ValueError msg)) /\
   exec LeadScorer_init w st = st /\
   forall l,
     exists msg,
       eval (let* scorer := LeadScorer_init in score_lead scorer l) w st
       = inl (ValueError msg)) /\
  (forall scorer, eval LeadScorer_init w st = inr scorer ->
     weights_as_configured scorer /\
     (cache_valid st -> weights_valid (settings scorer))).
Proof.
  split.
  - intros Hc Hbad.
    assert (Hnv : ~ weights_valid (env_settings w)).
    { unfold weights_valid. lra. }
    pose proof (run_get_settings_fresh_bad w st Hc Hnv) as Hg.
    assert (Hi : LeadScorer_init w st =
                 (inl (ValueError "Feature weights must sum to 1.0"), st)).
    { unfold LeadScorer_init, bind. rewrite Hg. reflexivity. }
    repeat apply conj.
    + eexists. unfold eval. rewrite Hi. reflexivity.
    + unfold exec. rewrite Hi. reflexivity.
    + intros l. eexists. unfold eval, bind. rewrite Hi. reflexivity.
  - intros scorer H. unfold LeadScorer_init, eval, bind in H.
    destruct (get_settings w st) as [[e|s] st'] eqn:Hs; simpl in H;
      [discriminate|].
    assert (Hs' : eval get_settings w st = inr s)
      by (unfold eval; now rewrite Hs).
    inversion H; subst; clear H. split.
    + repeat split.
    + intros Hv. simpl. apply (get_settings_returns w st s Hs'), Hv.
Qed.

Lemma scorer_construction_validates_weights_witness :
  let w := unreachable_world
             (settings_with_weights 0.125 0.10 0.10 0.075 0.05 0.025 0.025) in
  (exists msg, eval LeadScorer_init w initial_state = inl (ValueError msg)) /\
  exec LeadScorer_init w initial_state = initial_state.
Proof.
  intros w.
  destruct (scorer_construction_validates_weights w initial_state)
    as [H _].
  destruct H as (Hr & Hs & _); [reflexivity | reflexivity |].
  split; [exact Hr | exact Hs].
Defined.

(** Weights summing to 1.5 are refused as well, and the defaults pass. *)
Example weights_one_and_a_half_rejected :
  let w := unreachable_world
             (settings_with_weights 0.375 0.30 0.30 0.225 0.15 0.075 0.075) in
  eval LeadScorer_init w initial_state
  = inl (ValueError "Feature weights must sum to 1.0").
Proof. reflexivity. Qed.

Example default_weights_accepted :
  exists scorer,
    eval LeadScorer_init demo_world initial_state = inr scorer /\
    settings scorer = default_settings.
Proof. eexists. split; reflexivity. Qed.

Lemma run_AlertConfig_validate_ok hot warm slack w st :
  (0 <= hot <= 100)%Z -> (0 <= warm <= 100)%Z ->
  AlertConfig_validate hot warm slack w st =
  (inr {| hot_threshold := hot; warm_threshold := warm;
          enable_slack := slack |}, st).
Proof.
  intros [H1 H2] [H3 H4]. unfold AlertConfig_validate.
  apply Z.leb_le in H1, H2, H3, H4. rewrite H1, H2, H3, H4. reflexivity.
Qed.

Lemma run_AlertConfig_validate_bad hot warm slack w st :
  ~ ((0 <= hot <= 100)%Z /\ (0 <= warm <= 100)%Z) ->
  AlertConfig_validate hot warm slack w st = (inl RequestValidationError, st).
Proof.
  intros H. unfold AlertConfig_validate.
  destruct ((0 <=? hot)%Z && (hot <=? 100)%Z && (0 <=? warm)%Z
            && (warm <=? 100)%Z) eqn:E; [|reflexivity].
  exfalso. apply H.
  repeat (apply andb_prop in E as [E ?]).
  repeat match goal with
         | E : (_ <=? _)%Z = true |- _ => apply Z.leb_le in E
         end. lia.
Qed.

(** C6. While the application runs (its settings are loaded), a threshold
    update is refused and leaves the state as it was when a threshold lies
    outside [0,100] or when [warm_threshold >= hot_threshold]; an update
    with both thresholds in [0,100] and [warm_threshold < hot_threshold]
    is accepted and stores exactly the two given values, every other
    setting kept. *)
Theorem threshold_update_checked (w : World) (st : State) (s : Settings)
    (hot warm : Z) (slack : bool) :
  settings_cache st = Some s ->
  let request := post_alerts_config hot warm slack in
  (~ ((0 <= hot <= 100)%Z /\ (0 <= warm <= 100)%Z) ->
   eval request w st = inl RequestValidationError /\
   exec request w st = st) /\
  ((0 <= hot <= 100)%Z -> (0 <= warm <= 100)%Z -> (hot <= warm)%Z ->
   eval request w st =
     inl (HTTPException 400
            "Warm threshold must be less than hot threshold") /\
   exec request w st = st) /\
  ((0 <= hot <= 100)%Z -> (0 <= warm <= 100)%Z -> (warm < hot)%Z ->
   eval request w st =
     inr {| hot_threshold := hot; warm_threshold := warm;
            enable_slack := slack |} /\
   settings_cache (exec request w st) = Some (set_thresholds s hot warm) /\
   hot_lead_threshold (set_thresholds s hot warm) = hot /\
   warm_lead_threshold (set_thresholds s hot warm) = warm /\
   tick (exec request w st) = tick st).
Proof.
  intros Hc request. unfold request, post_alerts_config.
  repeat apply conj.
  - intros Hbad. unfold eval, exec, bind.
    rewrite (run_AlertConfig_validate_bad _ _ _ w st Hbad). split; reflexivity.
  - intros Hh Hw Hord. unfold eval, exec, bind.
    rewrite (run_AlertConfig_validate_ok _ _ slack w st Hh Hw).
    unfold update_alert_config, bind.
    rewrite (run_get_settings_cached s w st Hc). simpl.
    assert (E : (warm >=? hot)%Z = true) by (apply Z.geb_le; lia).
    rewrite E. split; reflexivity.
  - intros Hh Hw Hord. unfold eval, exec, bind.
    rewrite (run_AlertConfig_validate_ok _ _ slack w st Hh Hw).
    unfold update_alert_config, bind.
    rewrite (run_get_settings_cached s w st Hc). simpl.
    assert (E : (warm >=? hot)%Z = false).
    { apply not_true_iff_false. rewrite Z.geb_le. lia. }
    rewrite E. repeat split.
Qed.

Lemma threshold_update_checked_witness :
  (eval (post_alerts_config 80 80 true) demo_world running_state
   = inl (HTTPException 400
            "Warm threshold must be less than hot threshold") /\
   exec (post_alerts_config 80 80 true) demo_world running_state
   = running_state) /\
  (eval (post_alerts_config 101 50 true) demo_world running_state
   = inl RequestValidationError /\
   exec (post_alerts_config 101 50 true) demo_world running_state
   = running_state) /\
  settings_cache (exec (post_alerts_config 80 60 true) demo_world
                    running_state)
  = Some (set_thresholds default_settings 80 60).
Proof.
  destruct (threshold_update_checked demo_world running_state
              default_settings 80 80 true eq_refl) as (_ & Hord & _).
  destruct (threshold_update_checked demo_world running_state
              default_settings 101 50 true eq_refl) as (Hrange & _ & _).
  destruct (threshold_update_checked demo_world running_state
              default_settings 80 60 true eq_refl) as (_ & _ & Hok).
  split; [apply Hord; lia|].
  split; [apply Hrange; lia|].
  apply Hok; lia.
Defined.

End Configuration.

(** ** Fetch failures and the refresh cycle *)

Section Refresh.

Lemma slack_posts_app tr tr' :
  slack_posts (tr ++ tr') = slack_posts tr ++ slack_posts tr'.
Proof.
  induction tr as [|ev tr IH]; simpl; [reflexivity|].
  destruct ev; simpl; now rewrite IH.
Qed.

Lemma run_parse_contacts_loop w contacts : forall leads,
  exists r, forall st, parse_contacts_loop contacts leads w st = (r, st).
Proof.
  induction contacts as [|c contacts IH]; intros leads; simpl.
  - exists (inr leads). reflexivity.
  - unfold bind, parse_contact.
    destruct (_parse_contact w c) as [e|l].
    + exists (inl e). reflexivity.
    + destruct (IH (leads ++ [l])) as [r Hr]. exists r. exact Hr.
Qed.

(** The [try] body issues one GET and touches nothing else; whether it
    returns or raises is decided by the world alone. *)
Lemma run_get_contacts_try self limit w :
  exists r, forall st,
    get_contacts_try self limit w st
    = (r, add_event st (HttpGet (contacts_url self) limit)).
Proof.
  unfold get_contacts_try, http_get, bind, emit, contacts_url.
  destruct (client_get w _ limit) as [e|resp];
    [exists (inl e); reflexivity|].
  unfold do_raise_for_status, lift.
  destruct (raise_for_status resp) as [e|];
    [exists (inl e); reflexivity|].
  destruct (response_json resp) as [e|data];
    [exists (inl e); reflexivity|].
  assert (Hloop : forall items,
    exists r, forall st, parse_contacts_loop items [] w st = (r, st))
    by (intros; apply run_parse_contacts_loop).
  destruct data as [| | | |items|items];
    try (exists (inl AttributeError); reflexivity).
  simpl.
  destruct (default (JList []) (dict_get "results" items))
    as [| | |s0|l0|d0]; simpl;
    try (exists (inl TypeError); reflexivity);
    match goal with
    | |- context [parse_contacts_loop ?c []] =>
        destruct (Hloop c) as [r Hr]; exists r; intros st; apply Hr
    end.
Qed.

Lemma run_get_contacts_failure self limit w st e :
  demo_mode (hs_settings self) = false ->
  eval (get_contacts_try self limit) w st = inl e ->
  is_Exception e = true ->
  get_contacts self limit w st =
  (inr [],
   add_event (add_event st (HttpGet (contacts_url self) limit))
     (LogException "Error fetching contacts from HubSpot" e)).
Proof.
  intros Hd He Hc. unfold get_contacts. rewrite Hd.
  destruct (run_get_contacts_try self limit w) as [r Hr].
  unfold eval in He. rewrite Hr in He. simpl in He. subst r.
  unfold try_except. rewrite Hr, Hc. reflexivity.
Qed.

Lemma run_HubSpotClient_init s w st :
  settings_cache st = Some s ->
  HubSpotClient_init w st = (inr (HubSpotClient_of s), st).
Proof.
  intros H. unfold HubSpotClient_init, bind.
  rewrite (run_get_settings_cached s w st H). reflexivity.
Qed.

Lemma run_LeadScorer_init s w st :
  settings_cache st = Some s ->
  exists scorer, LeadScorer_init w st = (inr scorer, st).
Proof.
  intros H. unfold LeadScorer_init, bind.
  rewrite (run_get_settings_cached s w st H). eexists. reflexivity.
Qed.

Lemma run_SlackNotifier_init s w st :
  settings_cache st = Some s ->
  SlackNotifier_init w st =
  (inr {| sn_settings := s; webhook_url := slack_webhook_url s;
          channel := slack_channel s |}, st).
Proof.
  intros H. unfold SlackNotifier_init, bind.
  rewrite (run_get_settings_cached s w st H). reflexivity.
Qed.

(** Outside the demo mode the summary goes out whenever a webhook is
    configured, whatever the counts are. *)
Lemma notify_score_update_posts nt total hot warm w st :
  demo_mode (sn_settings nt) = false ->
  slack_posts (trace (exec (notify_score_update nt total hot warm) w st))
  = slack_posts (trace st) ++
    (if String.eqb (webhook_url nt) EmptyString then []
     else [SummaryMessage (channel nt) total hot warm (utc w (tick st))]).
Proof.
  intros Hd. unfold notify_score_update. rewrite Hd.
  destruct (String.eqb (webhook_url nt) EmptyString).
  - unfold exec, ret. simpl. now rewrite app_nil_r.
  - unfold exec, try_except, bind, _format_summary_message, http_post,
      bind, utcnow, emit, ret, do_raise_for_status. simpl.
    destruct (client_post w _ _) as [e|resp]; simpl.
    + destruct (is_Exception e); simpl;
        rewrite ?slack_posts_app; simpl; now rewrite ?app_nil_r.
    + destruct (raise_for_status resp) as [e|]; simpl.
      * destruct (is_Exception e); simpl;
          rewrite ?slack_posts_app; simpl; now rewrite ?app_nil_r.
      * rewrite ?slack_posts_app; simpl; now rewrite ?app_nil_r.
Qed.

(** The refresh cycle when the fetch has failed: its Slack posts are those
    of the summary notification for no leads. *)
Lemma refresh_after_failed_fetch w st s e :
  settings_cache st = Some s ->
  demo_mode s = false ->
  eval (get_contacts_try (HubSpotClient_of s) 100) w st = inl e ->
  is_Exception e = true ->
  exists st1,
    tick st1 = tick st /\
    slack_posts (trace st1) = slack_posts (trace st) /\
    slack_posts (trace (exec scheduled_score_refresh w st))
    = slack_posts
        (trace (exec (notify_score_update
                        {| sn_settings := s;
                           webhook_url := slack_webhook_url s;
                           channel := slack_channel s |} 0 0 0) w st1)).
Proof.
  intros Hc Hd He Hexc.
  set (st0 := add_event st (Log INFO "Running scheduled score refresh")).
  assert (Hc0 : settings_cache st0 = Some s) by exact Hc.
  assert (He0 : eval (get_contacts_try (HubSpotClient_of s) 100) w st0
                = inl e).
  { destruct (run_get_contacts_try (HubSpotClient_of s) 100 w) as [r Hr].
    unfold eval in *. rewrite Hr in *. exact He. }
  pose proof (run_get_contacts_failure (HubSpotClient_of s) 100 w st0 e
                Hd He0 Hexc) as Hg.
  set (st1 := add_event _ _) in Hg.
  destruct (run_LeadScorer_init s w st0 Hc0) as [scorer Hsc].
  exists st1. split; [reflexivity|]. split.
  { unfold st1, st0. simpl. rewrite !slack_posts_app. simpl.
    now rewrite !app_nil_r. }
  unfold exec at 1, scheduled_score_refresh, bind at 1, emit at 1.
  fold st0. unfold try_except, bind.
  rewrite (run_HubSpotClient_init s w st0 Hc0), Hsc,
    (run_SlackNotifier_init s w st0 Hc0), Hg.
  simpl. change (Z.of_nat 0) with 0%Z. unfold exec.
  destruct (notify_score_update _ 0 0 0 w st1) as [[e'|b] st2]; simpl.
  - destruct (is_Exception e'); simpl; [|reflexivity].
    rewrite slack_posts_app. simpl. now rewrite app_nil_r.
  - rewrite slack_posts_app. simpl. now rewrite app_nil_r.
Qed.

(** C9, as the code has it. When the [try] body of [get_contacts] raises
    an [Exception] (the data source cannot be reached, the status is an
    error, the payload is malformed or a contact does not parse),
    [get_contacts] logs it and returns the empty list instead of raising;
    [score_leads] on that list returns the empty list; and the refresh
    cycle sends no hot-lead alert, but it still sends the summary
    notification, with the counts 0, 0, 0, when a webhook is
    configured. *)
Theorem failed_fetch_contained (self : HubSpotClient) (limit : Z)
    (w : World) (st : State) (e : exn) :
  demo_mode (hs_settings self) = false ->
  eval (get_contacts_try self limit) w st = inl e ->
  is_Exception e = true ->
  eval (get_contacts self limit) w st = inr [] /\
  trace (exec (get_contacts self limit) w st)
  = trace st ++ [HttpGet (contacts_url self) limit;
                 LogException "Error fetching contacts from HubSpot" e] /\
  (forall scorer st', eval (score_leads scorer []) w st' = inr []) /\
  (forall st0,
     settings_cache st0 = Some (hs_settings self) ->
     self = HubSpotClient_of (hs_settings self) ->
     limit = 100 ->
     let after := slack_posts (trace (exec scheduled_score_refresh w st0)) in
     List.filter is_hot_lead_message after
     = List.filter is_hot_lead_message (slack_posts (trace st0)) /\
     exists ts,
       after = slack_posts (trace st0) ++
         (if String.eqb (slack_webhook_url (hs_settings self)) EmptyString
          then []
          else [SummaryMessage (slack_channel (hs_settings self))
                  0 0 0 ts])).
Proof.
  intros Hd He Hexc.
  pose proof (run_get_contacts_failure self limit w st e Hd He Hexc) as Hg.
  repeat apply conj.
  - unfold eval. rewrite Hg. reflexivity.
  - unfold exec. rewrite Hg. simpl. now rewrite <- app_assoc.
  - reflexivity.
  - intros st0 Hc Hself Hlimit after.
    assert (He0 : eval (get_contacts_try (HubSpotClient_of (hs_settings self))
                          100) w st0 = inl e).
    { rewrite <- Hself, <- Hlimit.
      destruct (run_get_contacts_try self limit w) as [r Hr].
      unfold eval in *. rewrite Hr in *. exact He. }
    destruct (refresh_after_failed_fetch w st0 (hs_settings self) e
                Hc Hd He0 Hexc) as (st1 & Ht & Hp & Hafter).
    rewrite notify_score_update_posts in Hafter by exact Hd.
    cbn [webhook_url channel] in Hafter. rewrite Hp in Hafter.
    assert (Ha : after = slack_posts (trace st0) ++
      (if String.eqb (slack_webhook_url (hs_settings self)) EmptyString
       then []
       else [SummaryMessage (slack_channel (hs_settings self)) 0 0 0
               (utc w (tick st1))])) by exact Hafter.
    split; [|eexists; exact Ha].
    rewrite Ha, List.filter_app.
    destruct (String.eqb _ _); simpl; now rewrite app_nil_r.
Qed.

Lemma failed_fetch_contained_witness :
  eval (get_contacts production_client 100) production_world
    production_state = inr [] /\
  trace (exec (get_contacts production_client 100) production_world
           production_state)
  = [HttpGet "https://api.hubapi.com/crm/v3/objects/contacts" 100;
     LogException "Error fetching contacts from HubSpot" ConnectError].
Proof.
  destruct (failed_fetch_contained production_client 100 production_world
              production_state ConnectError eq_refl eq_refl eq_refl)
    as (Hr & Ht & _).
  split; [exact Hr | exact Ht].
Defined.

(** C9, as the specification words it, fails: in a production process
    whose CRM cannot be reached, the fetch fails, [get_contacts] returns
    the empty list, and the cycle is not silent: one summary message goes
    to Slack. *)
Lemma failed_fetch_cycle_still_notifies :
  eval (get_contacts_try production_client 100) production_world
    production_state = inl ConnectError /\
  eval (get_contacts production_client 100) production_world
    production_state = inr [] /\
  slack_posts (trace production_state) = [] /\
  slack_posts (trace (exec scheduled_score_refresh production_world
                        production_state))
  = [SummaryMessage "#sales-alerts" 0 0 0 (example_clock 0)].
Proof. repeat split. Qed.

End Refresh.

(** * Further properties *)

(** ** The scorer *)

Section ScorerExtras.

Open Scope Q_scope.

Lemma lower_ascii_idem c : lower_ascii (lower_ascii c) = lower_ascii c.
Proof.
  destruct c as [[] [] [] [] [] [] [] []]; reflexivity.
Qed.

Lemma lower_upper_ascii c : lower_ascii (upper_ascii c) = lower_ascii c.
Proof.
  destruct c as [[] [] [] [] [] [] [] []]; reflexivity.
Qed.

Lemma lower_idem s : lower (lower s) = lower s.
Proof.
  induction s as [|c s IH]; simpl; [reflexivity|].
  now rewrite lower_ascii_idem, IH.
Qed.

Lemma lower_upper s : lower (upper s) = lower s.
Proof.
  induction s as [|c s IH]; simpl; [reflexivity|].
  now rewrite lower_upper_ascii, IH.
Qed.

(** The deal-stage score does not depend on the case of the stage: a stage,
    its upper-case and its lower-case form score the same; a stage that is
    absent, empty or not one of the six known names scores 0.3, the value
    of [lead]. *)
Theorem deal_stage_case_insensitive (l : Lead) (stage : string) :
  _score_deal_stage (with_deal_stage l (Some (upper stage)))
  = _score_deal_stage (with_deal_stage l (Some stage)) /\
  _score_deal_stage (with_deal_stage l (Some (lower stage)))
  = _score_deal_stage (with_deal_stage l (Some stage)) /\
  _score_deal_stage (with_deal_stage l None) = 0.3 /\
  _score_deal_stage (with_deal_stage l (Some EmptyString)) = 0.3 /\
  _score_deal_stage (with_deal_stage l (Some "lead")) = 0.3 /\
  (lower stage ∉ dom stage_scores ->
   _score_deal_stage (with_deal_stage l (Some stage)) = 0.3).
Proof.
  unfold _score_deal_stage. simpl. rewrite lower_upper, lower_idem.
  repeat apply conj; try reflexivity.
  intros H. apply not_elem_of_dom in H. now rewrite H.
Qed.

Lemma deal_stage_case_insensitive_witness :
  _score_deal_stage (with_deal_stage blank_lead (Some "Partner")) = 0.3.
Proof.
  apply (deal_stage_case_insensitive blank_lead "Partner").
  vm_compute. discriminate.
Defined.

(** The company-size score never decreases when the company grows, and a
    missing size scores like the smallest bucket. *)
Theorem company_size_score_monotone (l : Lead) (n n' : Z) :
  (n <= n')%Z ->
  _score_company_size (with_company_size l (Some n))
  <= _score_company_size (with_company_size l (Some n')) /\
  _score_company_size (with_company_size l None)
  <= _score_company_size (with_company_size l (Some n)).
Proof.
  intros H. unfold _score_company_size. simpl.
  split; repeat case_match; try lra;
    repeat match goal with
           | E : (_ <=? _)%Z = true |- _ => apply Z.leb_le in E
           | E : (_ <=? _)%Z = false |- _ => apply Z.leb_gt in E
           | E : (_ =? _)%Z = true |- _ => apply Z.eqb_eq in E
           | E : (_ =? _)%Z = false |- _ => apply Z.eqb_neq in E
           end; lia.
Qed.

Lemma company_size_score_monotone_witness :
  _score_company_size (with_company_size blank_lead (Some 50%Z))
  <= _score_company_size (with_company_size blank_lead (Some 51%Z)).
Proof.
  apply (company_size_score_monotone blank_lead 50 51). lia.
Defined.

Lemma opens_boost_ge_1 now last : 1 <= opens_boost now last.
Proof.
  unfold opens_boost. destruct last as [t|]; [|lra].
  cbv zeta. repeat case_match; lra.
Qed.

Lemma visits_boost_ge_1 now last : 1 <= visits_boost now last.
Proof.
  unfold visits_boost. destruct last as [t|]; [|lra].
  cbv zeta. repeat case_match; lra.
Qed.

Lemma inject_Z_div_ge_1 (n d : Z) :
  (0 < d)%Z -> (d <= n)%Z -> 1 <= inject_Z n / inject_Z d.
Proof.
  intros Hd Hn. apply Qle_shift_div_l.
  - change 0 with (inject_Z 0). now rewrite <- Zlt_Qlt.
  - rewrite Qmult_1_l. now rewrite <- Zle_Qle.
Qed.

Lemma boosted_saturates (n d : Z) b :
  (0 < d)%Z -> (d <= n)%Z -> 1 <= b -> boosted n (inject_Z d) b == 1.
Proof.
  intros Hd Hn Hb. unfold boosted.
  pose proof (inject_Z_div_ge_1 n d Hd Hn) as H.
  assert (E : Qmin 1.0 (inject_Z n / inject_Z d) == 1).
  { rewrite Q.min_l; lra. }
  rewrite E, Q.min_l; lra.
Qed.

(** The saturation points the comments of the scorers name: ten or more
    opens, five or more clicks, eight or more visits, six or more CRM
    activities each score exactly 1, whatever the recency. *)
Theorem engagement_scores_saturate (l : Lead) (w : World) (st : State) :
  ((10 <= email_opens (engagement l))%Z ->
   returns (_score_email_opens l) w st (fun v => v == 1)) /\
  ((5 <= email_clicks (engagement l))%Z -> _score_email_clicks l == 1) /\
  ((8 <= website_visits (engagement l))%Z ->
   returns (_score_website_visits l) w st (fun v => v == 1)) /\
  ((6 <= crm_activities (engagement l))%Z -> _score_crm_activities l == 1).
Proof.
  unfold returns. repeat apply conj; intros H.
  - eexists. split; [apply run_score_email_opens|].
    destruct (Z.eqb_spec (email_opens (engagement l)) 0); [lia|].
    apply (boosted_saturates _ 10); [lia | lia | apply opens_boost_ge_1].
  - unfold _score_email_clicks.
    pose proof (inject_Z_div_ge_1 _ 5 ltac:(lia) H) as H1.
    change (inject_Z 5) with 5 in H1. rewrite Q.min_l; lra.
  - eexists. split; [apply run_score_website_visits|].
    destruct (Z.eqb_spec (website_visits (engagement l)) 0); [lia|].
    apply (boosted_saturates _ 8); [lia | lia | apply visits_boost_ge_1].
  - unfold _score_crm_activities.
    pose proof (inject_Z_div_ge_1 _ 6 ltac:(lia) H) as H1.
    change (inject_Z 6) with 6 in H1. rewrite Q.min_l; lra.
Qed.

Lemma engagement_scores_saturate_witness :
  returns (_score_email_opens (demo_lead 2)) demo_world initial_state
    (fun v => v == 1) /\
  _score_email_clicks (demo_lead 2) == 1 /\
  returns (_score_website_visits (demo_lead 2)) demo_world initial_state
    (fun v => v == 1) /\
  _score_crm_activities (demo_lead 2) == 1.
Proof.
  destruct (engagement_scores_saturate (demo_lead 2) demo_world initial_state)
    as (H1 & H2 & H3 & H4).
  split; [apply H1; vm_compute; discriminate|].
  split; [apply H2; vm_compute; discriminate|].
  split; [apply H3; vm_compute; discriminate|].
  apply H4; vm_compute; discriminate.
Defined.

(** Below their saturation points the two scorers without a boost are
    linear in the count. *)
Theorem unboosted_scores_linear (l : Lead) :
  ((email_clicks (engagement l) <= 5)%Z ->
   _score_email_clicks l == inject_Z (email_clicks (engagement l)) / 5) /\
  ((crm_activities (engagement l) <= 6)%Z ->
   _score_crm_activities l == inject_Z (crm_activities (engagement l)) / 6).
Proof.
  split; intros H.
  - unfold _score_email_clicks. rewrite Q.min_r; [reflexivity|].
    apply Qle_shift_div_r; [lra|].
    rewrite Zle_Qle in H. change (inject_Z 5) with 5 in H. lra.
  - unfold _score_crm_activities. rewrite Q.min_r; [reflexivity|].
    apply Qle_shift_div_r; [lra|].
    rewrite Zle_Qle in H. change (inject_Z 6) with 6 in H. lra.
Qed.

Lemma unboosted_scores_linear_witness :
  _score_email_clicks (demo_lead 1) == 1 # 5.
Proof.
  destruct (unboosted_scores_linear (demo_lead 1)) as [H _].
  rewrite H; [reflexivity | vm_compute; discriminate].
Defined.

End ScorerExtras.

(** ** Rounding is monotone, and keeps whole numbers *)

Section RoundingExtras.

Open Scope Q_scope.





End RoundingExtras.

(** ** score_lead: what the reported score says about the tier *)

Section ScoreLeadExtras.

Open Scope Q_scope.











End ScoreLeadExtras.

(** ** Settings and alert configuration *)

Section ConfigurationExtras.

Open Scope Q_scope.

(** [get_settings] is cached: once it has returned, every later call
    returns the same settings without touching the state, whatever the
    environment has become; a call that raises caches nothing, so the next
    call validates the environment again. *)
Theorem get_settings_is_cached (w w' : World) (st : State) :
  (forall s, eval get_settings w st = inr s ->
     get_settings w' (exec get_settings w st)
     = (inr s, exec get_settings w st)) /\
  (forall e, eval get_settings w st = inl e ->
     exec get_settings w st = st /\
     (weights_valid (env_settings w') ->
      eval get_settings w' (exec get_settings w st)
      = inr (env_settings w'))).
Proof.
  split.
  - intros s H.
    destruct (get_settings_returns w st s H) as [Hc _].
    now apply run_get_settings_cached.
  - intros e H. unfold eval, exec in *.
    destruct (settings_cache st) as [s0|] eqn:Hc.
    { rewrite (run_get_settings_cached s0 w st Hc) in H. discriminate. }
    destruct (weights_valid_dec (env_settings w)) as [Hok|Hbad].
    { rewrite (run_get_settings_fresh_ok w st Hc Hok) in H. discriminate. }
    rewrite (run_get_settings_fresh_bad w st Hc Hbad). simpl.
    split; [reflexivity|]. intros Hok'.
    now rewrite (run_get_settings_fresh_ok w' st Hc Hok').
Qed.

Lemma get_settings_is_cached_witness :
  get_settings (unreachable_world production_settings)
    (exec get_settings demo_world initial_state)
  = (inr default_settings, exec get_settings demo_world initial_state).
Proof.
  apply (get_settings_is_cached demo_world
           (unreachable_world production_settings) initial_state).
  reflexivity.
Defined.

Lemma run_post_alerts_config_ok w st s hot warm slack :
  settings_cache st = Some s ->
  (0 <= hot <= 100)%Z -> (0 <= warm <= 100)%Z -> (warm < hot)%Z ->
  post_alerts_config hot warm slack w st =
  (inr {| hot_threshold := hot; warm_threshold := warm;
          enable_slack := slack |},
   {| tick := tick st;
      settings_cache := Some (set_thresholds s hot warm);
      trace := trace st ++ [Log INFO "Updated alert config"] |}).
Proof.
  intros Hc Hh Hw Hord. unfold post_alerts_config, bind.
  rewrite (run_AlertConfig_validate_ok _ _ slack w st Hh Hw).
  unfold update_alert_config, bind.
  rewrite (run_get_settings_cached s w st Hc). simpl.
  assert (E : (warm >=? hot)%Z = false).
  { apply not_true_iff_false. rewrite Z.geb_le. lia. }
  rewrite E. reflexivity.
Qed.

(** An accepted threshold update takes effect on every scorer built
    afterwards: its thresholds are the new ones, its weights are those the
    settings had before, and it classifies by the new thresholds. *)
Theorem threshold_update_reaches_scorers (w w' : World) (st : State)
    (s : Settings) (hot warm : Z) (slack : bool) :
  settings_cache st = Some s ->
  (0 <= hot <= 100)%Z -> (0 <= warm <= 100)%Z -> (warm < hot)%Z ->
  exists scorer,
    eval LeadScorer_init w' (exec (post_alerts_config hot warm slack) w st)
    = inr scorer /\
    hot_lead_threshold (settings scorer) = hot /\
    warm_lead_threshold (settings scorer) = warm /\
    weights scorer =
      {| w_email_opens := weight_email_opens s;
         w_email_clicks := weight_email_clicks s;
         w_website_visits := weight_website_visits s;
         w_crm_activities := weight_crm_activities s;
         w_deal_stage := weight_deal_stage s;
         w_company_size := weight_company_size s;
         w_recency := weight_recency s |} /\
    _categorize_score scorer (inject_Z hot) = HOT /\
    _categorize_score scorer (inject_Z warm) = WARM /\
    _categorize_score scorer (inject_Z warm - 1) = COLD.
Proof.
  intros Hc Hh Hw Hord. unfold exec.
  rewrite (run_post_alerts_config_ok w st s hot warm slack Hc Hh Hw Hord).
  cbn [snd]. eexists. split.
  { unfold eval, LeadScorer_init, bind.
    rewrite (run_get_settings_cached (set_thresholds s hot warm)); reflexivity. }
  cbn [settings weights set_thresholds hot_lead_threshold
         warm_lead_threshold weight_email_opens weight_email_clicks
         weight_website_visits weight_crm_activities weight_deal_stage
         weight_company_size weight_recency].
  repeat apply conj; try reflexivity.
  - unfold _categorize_score. simpl.
    assert (E : Qle_bool (inject_Z hot) (inject_Z hot) = true)
      by (apply Qle_bool_iff, Qle_refl).
    now rewrite E.
  - unfold _categorize_score. simpl.
    assert (E1 : Qle_bool (inject_Z hot) (inject_Z warm) = false).
    { apply not_true_iff_false. rewrite Qle_bool_iff, <- Zle_Qle. lia. }
    assert (E2 : Qle_bool (inject_Z warm) (inject_Z warm) = true)
      by (apply Qle_bool_iff, Qle_refl).
    now rewrite E1, E2.
  - unfold _categorize_score. simpl.
    assert (Hq : inject_Z warm < inject_Z hot) by now rewrite <- Zlt_Qlt.
    assert (E1 : Qle_bool (inject_Z hot) (inject_Z warm - 1) = false).
    { apply not_true_iff_false. rewrite Qle_bool_iff. lra. }
    assert (E2 : Qle_bool (inject_Z warm) (inject_Z warm - 1) = false).
    { apply not_true_iff_false. rewrite Qle_bool_iff. lra. }
    now rewrite E1, E2.
Qed.

Lemma threshold_update_reaches_scorers_witness :
  exists scorer,
    eval LeadScorer_init demo_world
      (exec (post_alerts_config 90 60 false) demo_world running_state)
    = inr scorer /\
    _categorize_score scorer 80 = WARM.
Proof.
  destruct (threshold_update_reaches_scorers demo_world demo_world
              running_state default_settings 90 60 false eq_refl)
    as (scorer & Hr & _); [lia | lia | lia |].
  exists scorer. split; [exact Hr|].
  revert Hr. vm_compute. intros Hr. injection Hr as <-. reflexivity.
Defined.

(** Reading the alert configuration back after an accepted update gives the
    two thresholds just stored; [enable_slack] is not stored at all: the
    state after the update is the same whatever flag was sent, and what is
    read back says whether a webhook URL is configured. *)
Theorem alert_config_round_trip (w w' : World) (st : State) (s : Settings)
    (hot warm : Z) (slack : bool) :
  settings_cache st = Some s ->
  (0 <= hot <= 100)%Z -> (0 <= warm <= 100)%Z -> (warm < hot)%Z ->
  eval get_alert_config w' (exec (post_alerts_config hot warm slack) w st)
  = inr {| hot_threshold := hot; warm_threshold := warm;
           enable_slack :=
             negb (String.eqb (slack_webhook_url s) EmptyString) |} /\
  exec (post_alerts_config hot warm slack) w st
  = exec (post_alerts_config hot warm (negb slack)) w st.
Proof.
  intros Hc Hh Hw Hord. unfold exec.
  rewrite !(run_post_alerts_config_ok w st s hot warm _ Hc Hh Hw Hord).
  cbn [snd]. split; [|reflexivity].
  unfold eval, get_alert_config, bind.
  rewrite (run_get_settings_cached (set_thresholds s hot warm));
    [|reflexivity].
  cbn [set_thresholds hot_lead_threshold warm_lead_threshold
         slack_webhook_url].
  unfold AlertConfig_new.
  destruct Hh as [H1 H2], Hw as [H3 H4].
  apply Z.leb_le in H1, H2, H3, H4. rewrite H1, H2, H3, H4. reflexivity.
Qed.

Lemma alert_config_round_trip_witness :
  eval get_alert_config demo_world
    (exec (post_alerts_config 90 60 true) demo_world running_state)
  = inr {| hot_threshold := 90; warm_threshold := 60;
           enable_slack := false |}.
Proof.
  apply (alert_config_round_trip demo_world demo_world running_state
           default_settings 90 60 true eq_refl); lia.
Defined.

(** Loading the settings checks the weights and nothing else: with valid
    weights a fresh process loads whatever thresholds the environment
    gives, ordered or not, in [0,100] or not; reading the alert
    configuration then raises [ValidationError] exactly when one of the two
    thresholds lies outside [0,100]. *)
Theorem thresholds_unchecked_at_load (w : World) (st : State) :
  settings_cache st = None ->
  weights_valid (env_settings w) ->
  let hot := hot_lead_threshold (env_settings w) in
  let warm := warm_lead_threshold (env_settings w) in
  eval get_settings w st = inr (env_settings w) /\
  (((0 <= hot <= 100)%Z /\ (0 <= warm <= 100)%Z) ->
   exists c, eval get_alert_config w st = inr c /\
             hot_threshold c = hot /\ warm_threshold c = warm) /\
  (~ ((0 <= hot <= 100)%Z /\ (0 <= warm <= 100)%Z) ->
   eval get_alert_config w st = inl (ValidationError "AlertConfig")).
Proof.
  intros Hc Hok hot warm.
  pose proof (run_get_settings_fresh_ok w st Hc Hok) as Hg.
  repeat apply conj.
  - unfold eval. now rewrite Hg.
  - intros [[H1 H2] [H3 H4]]. unfold eval, get_alert_config, bind.
    rewrite Hg. unfold AlertConfig_new. fold hot warm.
    apply Z.leb_le in H1, H2, H3, H4. rewrite H1, H2, H3, H4.
    eexists. split; [reflexivity|]. split; reflexivity.
  - intros Hbad. unfold eval, get_alert_config, bind.
    rewrite Hg. unfold AlertConfig_new. fold hot warm.
    destruct ((0 <=? hot)%Z && (hot <=? 100)%Z && (0 <=? warm)%Z
              && (warm <=? 100)%Z) eqn:E; [|reflexivity].
    exfalso. apply Hbad.
    repeat (apply andb_prop in E as [E ?]).
    repeat match goal with
           | E : (_ <=? _)%Z = true |- _ => apply Z.leb_le in E
           end. lia.
Qed.

Lemma thresholds_unchecked_at_load_witness :
  let w := unreachable_world (set_thresholds default_settings 40 150) in
  eval get_settings w initial_state
  = inr (set_thresholds default_settings 40 150) /\
  eval get_alert_config w initial_state
  = inl (ValidationError "AlertConfig").
Proof.
  intros w.
  destruct (thresholds_unchecked_at_load w initial_state eq_refl)
    as (Hload & _ & Hbad).
  - vm_compute. discriminate.
  - split; [exact Hload|]. apply Hbad. simpl. lia.
Defined.

End ConfigurationExtras.

(** ** hubspot.py: company sizes *)

Section CompanySize.

Example parse_company_size_examples :
  _parse_company_size (Some "250") = inr (Some 250) /\
  _parse_company_size (Some "11-50") = inr (Some 50) /\
  _parse_company_size (Some "-5") = inr (Some 5) /\
  _parse_company_size (Some " 42 ") = inr (Some 42) /\
  _parse_company_size (Some "1_000") = inr (Some 1000) /\
  _parse_company_size (Some "1000+") = inr None /\
  _parse_company_size (Some "10-") = inr None /\
  _parse_company_size (Some "1-10-20") = inr (Some 10) /\
  _parse_company_size (Some "many") = inr None.
Proof. repeat split. Qed.

Lemma digit_of_facts c d :
  digit_of c = Some d ->
  is_space c = false /\ Ascii.eqb c "-" = false /\ Ascii.eqb c "+" = false.
Proof.
  destruct c as [[] [] [] [] [] [] [] []]; vm_compute; intros H;
    try discriminate H; repeat split.
Qed.

Lemma all_digits_cons c s :
  all_digits (String c s) = true ->
  exists d, digit_of c = Some d /\ all_digits s = true.
Proof.
  simpl. destruct (digit_of c) as [d|]; [eauto | discriminate].
Qed.

Lemma rstrip_digits s : all_digits s = true -> rstrip s = s.
Proof.
  induction s as [|c s IH]; [reflexivity|]. intros H.
  apply all_digits_cons in H as (d & Hd & Hs). simpl. rewrite (IH Hs).
  destruct (digit_of_facts c d Hd) as (Hsp & _). rewrite Hsp.
  now destruct s.
Qed.

Lemma strip_digits s : all_digits s = true -> strip s = s.
Proof.
  intros H. unfold strip.
  assert (E : lstrip s = s).
  { destruct s as [|c s]; [reflexivity|].
    apply all_digits_cons in H as (d & Hd & _). simpl.
    now destruct (digit_of_facts c d Hd) as (-> & _). }
  rewrite E. now apply rstrip_digits.
Qed.

Lemma digitpart_digits s : forall acc b,
  all_digits s = true -> s <> EmptyString \/ b = true ->
  digitpart acc b s = Some (decimal_from acc s).
Proof.
  induction s as [|c s IH]; intros acc b H Hne.
  - destruct Hne as [Hne| ->]; [congruence | reflexivity].
  - apply all_digits_cons in H as (d & Hd & Hs). simpl. rewrite Hd. simpl.
    apply IH; [exact Hs | now right].
Qed.

Lemma py_int_digits s :
  all_digits s = true -> s <> EmptyString -> py_int s = inr (decimal s).
Proof.
  intros H Hne. unfold py_int. rewrite (strip_digits s H).
  assert (E : digitpart 0 false s = Some (decimal s))
    by (apply digitpart_digits; auto).
  destruct s as [|c s]; [congruence|].
  pose proof H as H'. apply all_digits_cons in H' as (d & Hd & _).
  destruct (digit_of_facts c d Hd) as (_ & Hm & Hp).
  assert (Hrew : forall (A : Type) (x y z : A),
    match c with
    | "+"%char => x | "-"%char => y | _ => z
    end = z).
  { intros A x y z. clear -Hm Hp.
    destruct c as [[] [] [] [] [] [] [] []]; try reflexivity;
      vm_compute in Hm, Hp; discriminate. }
  rewrite Hrew, E. reflexivity.
Qed.

Lemma split_hyphen_nonempty s : split_hyphen s <> [].
Proof.
  destruct s as [|c s]; simpl; [discriminate|].
  destruct (Ascii.eqb c "-"); [discriminate|].
  destruct (split_hyphen s); discriminate.
Qed.

Lemma split_hyphen_second s :
  has_hyphen s = true -> exists a b rest, split_hyphen s = a :: b :: rest.
Proof.
  induction s as [|c s IH]; simpl; [discriminate|].
  destruct (Ascii.eqb c "-"); simpl.
  - intros _. destruct (split_hyphen s) as [|b rest] eqn:E.
    + now apply split_hyphen_nonempty in E.
    + eauto.
  - intros H. destruct (IH H) as (a & b & rest & ->). eauto.
Qed.

Lemma split_hyphen_plain s : has_hyphen s = false -> split_hyphen s = [s].
Proof.
  induction s as [|c s IH]; simpl; [reflexivity|].
  destruct (Ascii.eqb c "-"); simpl; [discriminate|].
  intros H. now rewrite (IH H).
Qed.

Lemma split_hyphen_append a b :
  has_hyphen a = false ->
  split_hyphen (String.append a (String "-" b)) = a :: split_hyphen b.
Proof.
  induction a as [|c a IH]; simpl; [reflexivity|].
  destruct (Ascii.eqb c "-"); simpl; [discriminate|].
  intros H. now rewrite (IH H).
Qed.

Lemma has_hyphen_append a b :
  has_hyphen (String.append a (String "-" b)) = true.
Proof.
  induction a as [|c a IH]; simpl; [reflexivity|].
  rewrite IH. now destruct (Ascii.eqb c "-").
Qed.

Lemma all_digits_no_hyphen s : all_digits s = true -> has_hyphen s = false.
Proof.
  induction s as [|c s IH]; [reflexivity|]. intros H.
  apply all_digits_cons in H as (d & Hd & Hs). simpl.
  destruct (digit_of_facts c d Hd) as (_ & -> & _). now apply IH.
Qed.

Lemma py_int_error s e : py_int s = inl e -> e = IntValueError.
Proof.
  unfold py_int.
  destruct (match strip s with
            | String "+" rest => digitpart 0 false rest
            | String "-" rest => option_map Z.opp (digitpart 0 false rest)
            | _ => digitpart 0 false (strip s)
            end); congruence.
Qed.

(** [_parse_company_size] never raises: every failure of [int()] is caught
    and gives [None], and the index 1 it takes after finding a hyphen always
    exists.  A missing or empty size gives [None]. *)
Theorem parse_company_size_never_raises (size_str : option string) :
  (exists r, _parse_company_size size_str = inr r) /\
  _parse_company_size None = inr None /\
  _parse_company_size (Some EmptyString) = inr None.
Proof.
  split; [|split; reflexivity].
  destruct size_str as [s|]; [|eexists; reflexivity].
  unfold _parse_company_size.
  destruct (String.eqb s EmptyString); [eexists; reflexivity|].
  destruct (has_hyphen s) eqn:Hh.
  - destruct (split_hyphen_second s Hh) as (a & b & rest & ->).
    unfold list_index. simpl.
    destruct (py_int b) as [e|n] eqn:E; [|eexists; reflexivity].
    apply py_int_error in E as ->. eexists; reflexivity.
  - destruct (py_int s) as [e|n] eqn:E; [|eexists; reflexivity].
    apply py_int_error in E as ->. eexists; reflexivity.
Qed.

(** A size written in decimal digits is read as that number; of a range
    [low-high] the upper bound is kept, whatever stands before the hyphen,
    so that a negative number loses its sign. *)
Theorem parse_company_size_reads_upper_bound (low high : string) :
  all_digits high = true -> high <> EmptyString ->
  _parse_company_size (Some high) = inr (Some (decimal high)) /\
  (has_hyphen low = false ->
   _parse_company_size (Some (String.append low (String "-" high)))
   = inr (Some (decimal high))) /\
  _parse_company_size (Some (String "-" high)) = inr (Some (decimal high)).
Proof.
  intros Hd Hne.
  pose proof (py_int_digits high Hd Hne) as Hint.
  pose proof (all_digits_no_hyphen high Hd) as Hnh.
  assert (Hrange : forall low, has_hyphen low = false ->
    _parse_company_size (Some (String.append low (String "-" high)))
    = inr (Some (decimal high))).
  { intros a Ha. unfold _parse_company_size.
    assert (E : String.eqb (String.append a (String "-" high)) EmptyString
                = false) by (now destruct a).
    rewrite E, has_hyphen_append, (split_hyphen_append a high Ha),
      (split_hyphen_plain high Hnh).
    unfold list_index. simpl. now rewrite Hint. }
  repeat apply conj.
  - unfold _parse_company_size.
    assert (E : String.eqb high EmptyString = false)
      by (destruct high; [congruence | reflexivity]).
    now rewrite E, Hnh, Hint.
  - apply Hrange.
  - apply (Hrange EmptyString). reflexivity.
Qed.

Lemma parse_company_size_reads_upper_bound_witness :
  _parse_company_size (Some "201-1000") = inr (Some 1000).
Proof.
  destruct (parse_company_size_reads_upper_bound "201" "1000"
              eq_refl ltac:(discriminate)) as (_ & H & _).
  apply H. reflexivity.
Defined.

End CompanySize.

(** ** hubspot.py: get_contacts *)

Section GetContactsExtras.

Lemma run_parse_contacts_ok w contacts : forall leads acc st,
  Forall2 (fun c l => _parse_contact w c = inr l) contacts leads ->
  parse_contacts_loop contacts acc w st = (inr (acc ++ leads), st).
Proof.
  induction contacts as [|c contacts IH]; intros leads acc st H;
    inversion H; subst; simpl.
  - now rewrite app_nil_r.
  - unfold bind, parse_contact.
    match goal with E : _parse_contact w c = _ |- _ => rewrite E end.
    rewrite (IH _ _ _ ltac:(eassumption)), <- app_assoc. reflexivity.
Qed.

Lemma run_parse_contacts_bad w good bad rest e : forall acc st,
  Forall (fun c => exists l, _parse_contact w c = inr l) good ->
  _parse_contact w bad = inl e ->
  parse_contacts_loop (good ++ bad :: rest) acc w st = (inl e, st).
Proof.
  induction good as [|c good IH]; intros acc st Hg Hb; simpl.
  - unfold bind, parse_contact. now rewrite Hb.
  - inversion Hg as [|? ? [l Hl] Hg']; subst.
    unfold bind, parse_contact. rewrite Hl. now apply IH.
Qed.

(** When the request succeeds and every contact of the [results] list
    parses, [get_contacts] returns the parsed leads, one per contact and in
    the order of the payload, after a single GET and without logging. *)
Theorem get_contacts_returns_parsed_contacts (self : HubSpotClient)
    (limit : Z) (w : World) (st : State) (response : Response)
    (items : list (string * json)) (contacts : list json)
    (leads : list Lead) :
  demo_mode (hs_settings self) = false ->
  client_get w (contacts_url self) limit = inr response ->
  raise_for_status response = None ->
  response_json response = inr (JDict items) ->
  dict_get "results" items = Some (JList contacts) ->
  Forall2 (fun c l => _parse_contact w c = inr l) contacts leads ->
  eval (get_contacts self limit) w st = inr leads /\
  length leads = length contacts /\
  trace (exec (get_contacts self limit) w st)
  = trace st ++ [HttpGet (contacts_url self) limit].
Proof.
  intros Hd Hget Hst Hjs Hres Hparse.
  assert (Hrun : get_contacts self limit w st =
                 (inr leads, add_event st (HttpGet (contacts_url self) limit))).
  { unfold get_contacts. rewrite Hd.
    unfold try_except, get_contacts_try, bind, http_get, bind, emit,
      do_raise_for_status, lift.
    fold (contacts_url self). rewrite Hget, Hst, Hjs. simpl. rewrite Hres.
    simpl. now rewrite (run_parse_contacts_ok w contacts leads [] _ Hparse). }
  unfold eval, exec. rewrite Hrun. repeat split.
  symmetry. eapply Forall2_length, Hparse.
Qed.

Lemma get_contacts_returns_parsed_contacts_witness :
  let w := {| utc := example_clock;
              env_settings := production_settings;
              client_get := fun _ _ =>
                inr {| raise_for_status := None;
                       response_json :=
                         inr (JDict [("results", JList [JNull; JNull])]) |};
              client_post := fun _ _ => inl ConnectError;
              _parse_contact := fun _ => inr blank_lead |} in
  eval (get_contacts production_client 100) w production_state
  = inr [blank_lead; blank_lead].
Proof.
  intros w.
  apply (get_contacts_returns_parsed_contacts production_client 100 w
           production_state
           {| raise_for_status := None;
              response_json :=
                inr (JDict [("results", JList [JNull; JNull])]) |}
           [("results", JList [JNull; JNull])] [JNull; JNull]
           [blank_lead; blank_lead]); try reflexivity.
  repeat constructor.
Defined.

(** One contact that does not parse costs the whole batch: when any contact
    of the payload raises an [Exception] in [_parse_contact], the leads
    parsed before it are dropped as well and [get_contacts] returns the
    empty list, logging that exception. *)
Theorem get_contacts_drops_batch_on_bad_contact (self : HubSpotClient)
    (limit : Z) (w : World) (st : State) (response : Response)
    (items : list (string * json)) (good rest : list json) (bad : json)
    (e : exn) :
  demo_mode (hs_settings self) = false ->
  client_get w (contacts_url self) limit = inr response ->
  raise_for_status response = None ->
  response_json response = inr (JDict items) ->
  dict_get "results" items = Some (JList (good ++ bad :: rest)) ->
  Forall (fun c => exists l, _parse_contact w c = inr l) good ->
  _parse_contact w bad = inl e ->
  is_Exception e = true ->
  eval (get_contacts self limit) w st = inr [] /\
  trace (exec (get_contacts self limit) w st)
  = trace st ++ [HttpGet (contacts_url self) limit;
                 LogException "Error fetching contacts from HubSpot" e].
Proof.
  intros Hd Hget Hst Hjs Hres Hgood Hbad He.
  assert (Htry : forall st', get_contacts_try self limit w st' =
            (inl e, add_event st' (HttpGet (contacts_url self) limit))).
  { intros st'.
    unfold get_contacts_try, bind, http_get, bind, emit,
      do_raise_for_status, lift.
    fold (contacts_url self). rewrite Hget, Hst, Hjs. simpl. rewrite Hres.
    simpl. now rewrite (run_parse_contacts_bad w good bad rest e [] _
                          Hgood Hbad). }
  assert (Hrun : get_contacts self limit w st =
    (inr [],
     add_event (add_event st (HttpGet (contacts_url self) limit))
       (LogException "Error fetching contacts from HubSpot" e))).
  { apply run_get_contacts_failure; [exact Hd | | exact He].
    unfold eval. now rewrite Htry. }
  unfold eval, exec. rewrite Hrun. split; [reflexivity|].
  simpl. now rewrite <- app_assoc.
Qed.

Lemma get_contacts_drops_batch_on_bad_contact_witness :
  let w := {| utc := example_clock;
              env_settings := production_settings;
              client_get := fun _ _ =>
                inr {| raise_for_status := None;
                       response_json :=
                         inr (JDict [("results",
                                      JList [JNull; JBool true; JNull])]) |};
              client_post := fun _ _ => inl ConnectError;
              _parse_contact := fun c =>
                match c with
                | JNull => inr blank_lead
                | _ => inl KeyError
                end |} in
  eval (get_contacts production_client 100) w production_state = inr [].
Proof.
  intros w.
  apply (get_contacts_drops_batch_on_bad_contact production_client 100 w
           production_state
           {| raise_for_status := None;
              response_json :=
                inr (JDict [("results",
                             JList [JNull; JBool true; JNull])]) |}
           [("results", JList [JNull; JBool true; JNull])]
           [JNull] [JNull] (JBool true) KeyError); try reflexivity.
  repeat constructor. now exists blank_lead.
Defined.

(** A payload that is a JSON object without a [results] key is not an
    error: [get_contacts] returns the empty list and logs nothing.  A
    payload that is not a JSON object is one: the empty list again, with
    the [AttributeError] logged. *)
Theorem get_contacts_without_results (self : HubSpotClient) (limit : Z)
    (w : World) (st : State) (response : Response) (data : json) :
  demo_mode (hs_settings self) = false ->
  client_get w (contacts_url self) limit = inr response ->
  raise_for_status response = None ->
  response_json response = inr data ->
  (forall items, data = JDict items -> dict_get "results" items = None ->
   eval (get_contacts self limit) w st = inr [] /\
   trace (exec (get_contacts self limit) w st)
   = trace st ++ [HttpGet (contacts_url self) limit]) /\
  ((forall items, data <> JDict items) ->
   eval (get_contacts self limit) w st = inr [] /\
   trace (exec (get_contacts self limit) w st)
   = trace st ++ [HttpGet (contacts_url self) limit;
                  LogException "Error fetching contacts from HubSpot"
                    AttributeError]).
Proof.
  intros Hd Hget Hst Hjs. split.
  - intros items -> E.
    assert (Hrun : get_contacts self limit w st =
              (inr [], add_event st (HttpGet (contacts_url self) limit))).
    { unfold get_contacts. rewrite Hd.
      unfold try_except, get_contacts_try, bind, http_get, bind, emit,
        do_raise_for_status, lift.
      fold (contacts_url self). rewrite Hget, Hst, Hjs. simpl. rewrite E.
      reflexivity. }
    unfold eval, exec. rewrite Hrun. split; reflexivity.
  - intros Hnd.
    assert (Hrun : get_contacts self limit w st =
      (inr [],
       add_event (add_event st (HttpGet (contacts_url self) limit))
         (LogException "Error fetching contacts from HubSpot"
            AttributeError))).
    { unfold get_contacts. rewrite Hd.
      unfold try_except, get_contacts_try, bind, http_get, bind, emit,
        do_raise_for_status, lift.
      fold (contacts_url self). rewrite Hget, Hst, Hjs.
      destruct data; try reflexivity. now destruct (Hnd items). }
    unfold eval, exec. rewrite Hrun. split; [reflexivity|].
    simpl. now rewrite <- app_assoc.
Qed.

Lemma get_contacts_without_results_witness :
  let w := {| utc := example_clock;
              env_settings := production_settings;
              client_get := fun _ _ =>
                inr {| raise_for_status := None;
                       response_json := inr (JDict [("total", JNum 0)]) |};
              client_post := fun _ _ => inl ConnectError;
              _parse_contact := fun _ => inl KeyError |} in
  eval (get_contacts production_client 100) w production_state = inr [] /\
  trace (exec (get_contacts production_client 100) w production_state)
  = [HttpGet "https://api.hubapi.com/crm/v3/objects/contacts" 100].
Proof.
  intros w.
  destruct (get_contacts_without_results production_client 100 w
              production_state
              {| raise_for_status := None;
                 response_json := inr (JDict [("total", JNum 0)]) |}
              (JDict [("total", JNum 0)]) eq_refl eq_refl eq_refl eq_refl)
    as [H _].
  apply (H [("total", JNum 0)]); reflexivity.
Defined.

End GetContactsExtras.

(** ** Computations that stay quiet *)

Section Quiet.

Lemma quiet_ret {A} (a : A) : quiet (ret a).
Proof. intros w st. split; reflexivity. Qed.

Lemma quiet_raise {A} (e : exn) : quiet (raise e : M A).
Proof. intros w st. split; reflexivity. Qed.

Lemma quiet_utcnow : quiet utcnow.
Proof. intros w st. split; reflexivity. Qed.

Lemma quiet_bind {A B} (m : M A) (k : A -> M B) :
  quiet m -> (forall a, quiet (k a)) -> quiet (bind m k).
Proof.
  intros Hm Hk w st. specialize (Hm w st). unfold exec, bind in *.
  destruct (m w st) as [[e|a] st']; simpl in *; [exact Hm|].
  destruct (Hk a w st') as [H1 H2]. unfold exec in H1, H2.
  destruct Hm as [Hm1 Hm2]. split; congruence.
Qed.

Lemma quiet_score_lead self l : quiet (score_lead self l).
Proof.
  unfold score_lead, _score_email_opens, _score_website_visits,
    _score_recency, mk_LeadScore.
  repeat first
    [ apply quiet_ret
    | apply quiet_raise
    | apply quiet_utcnow
    | apply quiet_bind; [|intros ?]
    | match goal with
      | |- quiet (if ?b then _ else _) => destruct b
      | |- quiet (match ?x with _ => _ end) => destruct x
      end ].
Qed.

Lemma quiet_score_leads_loop self leads : forall acc,
  quiet (score_leads_loop self leads acc).
Proof.
  induction leads as [|l leads IH]; intros acc; simpl.
  - apply quiet_ret.
  - apply quiet_bind; [apply quiet_score_lead | intros ?; apply IH].
Qed.

Lemma quiet_score_leads self leads : quiet (score_leads self leads).
Proof.
  unfold score_leads. apply quiet_bind.
  - apply quiet_score_leads_loop.
  - intros ?. apply quiet_ret.
Qed.

Lemma http_requests_app tr tr' :
  http_requests (tr ++ tr') = http_requests tr ++ http_requests tr'.
Proof. apply List.filter_app. Qed.

Lemma offline_ret {A} (a : A) : offline (ret a).
Proof. intros w st. exists a, st. repeat split. Qed.

Lemma offline_log level msg : offline (emit (Log level msg)).
Proof.
  intros w st. do 2 eexists. split; [reflexivity|]. simpl.
  rewrite http_requests_app. simpl. now rewrite app_nil_r.
Qed.

Lemma offline_bind {A B} (m : M A) (k : A -> M B) :
  offline m -> (forall a, offline (k a)) -> offline (bind m k).
Proof.
  intros Hm Hk w st. destruct (Hm w st) as (a & st' & Hr & Ht & Hc).
  destruct (Hk a w st') as (b & st'' & Hr' & Ht' & Hc').
  exists b, st''. unfold bind. rewrite Hr. split; [exact Hr'|].
  split; congruence.
Qed.

Lemma offline_of_quiet {A} (m : M A) :
  quiet m -> (forall w st, exists a, eval m w st = inr a) -> offline m.
Proof.
  intros Hq Hr w st. destruct (Hr w st) as [a Ha].
  destruct (Hq w st) as [H1 H2]. unfold eval, exec in *.
  destruct (m w st) as [r st']; simpl in *. subst r.
  exists a, st'. split; [reflexivity|]. split; congruence.
Qed.

Lemma offline_score_leads self leads : offline (score_leads self leads).
Proof.
  apply offline_of_quiet; [apply quiet_score_leads|].
  intros w st.
  destruct (run_score_leads_loop self w leads [] st) as (scored & Hrun & _).
  eexists. unfold score_leads. rewrite (eval_bind _ _ _ _ _ Hrun).
  reflexivity.
Qed.

End Quiet.

(** ** slack_notifier.py and the refresh callback *)

Section NotifierExtras.

Lemma contains_try_except {A} (m : M A) (h : exn -> M A) :
  (forall e, contains_exceptions (h e)) ->
  contains_exceptions (try_except m h).
Proof.
  intros Hh w st e. unfold eval, try_except.
  destruct (m w st) as [[e'|a] st'] eqn:Hm; simpl; [|discriminate].
  destruct (is_Exception e') eqn:He'.
  - apply (Hh e' w st' e).
  - simpl. congruence.
Qed.

Lemma contains_log_ret {A} (ev : Event) (a : A) :
  contains_exceptions (let* _ := emit ev in ret a).
Proof. intros w st e. unfold eval. simpl. discriminate. Qed.

Lemma contains_emit (ev : Event) : contains_exceptions (emit ev).
Proof. intros w st e. unfold eval. simpl. discriminate. Qed.

Lemma contains_get_contacts self limit :
  contains_exceptions (get_contacts self limit).
Proof.
  unfold get_contacts. destruct (demo_mode (hs_settings self)).
  - intros w st e. unfold eval. simpl. discriminate.
  - apply contains_try_except. intros e. apply contains_log_ret.
Qed.

Lemma contains_notify_hot_lead self lead_score :
  contains_exceptions (notify_hot_lead self lead_score).
Proof.
  unfold notify_hot_lead.
  destruct (demo_mode (sn_settings self)); [apply contains_log_ret|].
  destruct (String.eqb (webhook_url self) EmptyString);
    [apply contains_log_ret|].
  apply contains_try_except. intros e. apply contains_log_ret.
Qed.

Lemma contains_notify_score_update self total hot warm :
  contains_exceptions (notify_score_update self total hot warm).
Proof.
  unfold notify_score_update.
  destruct (demo_mode (sn_settings self)); [apply contains_log_ret|].
  destruct (String.eqb (webhook_url self) EmptyString).
  - intros w st e. unfold eval. simpl. discriminate.
  - apply contains_try_except. intros e. apply contains_log_ret.
Qed.

(** None of the four operations that wrap their work in
    [try ... except Exception] lets an [Exception] out: [get_contacts],
    [notify_hot_lead], [notify_score_update] and the refresh callback raise
    nothing that derives from [Exception], in any world and state. *)
Theorem failures_are_contained :
  (forall self limit, contains_exceptions (get_contacts self limit)) /\
  (forall self lead_score,
     contains_exceptions (notify_hot_lead self lead_score)) /\
  (forall self total hot warm,
     contains_exceptions (notify_score_update self total hot warm)) /\
  contains_exceptions scheduled_score_refresh.
Proof.
  repeat apply conj.
  - apply contains_get_contacts.
  - apply contains_notify_hot_lead.
  - apply contains_notify_score_update.
  - intros w st e. unfold scheduled_score_refresh, eval, bind at 1, emit at 1.
    apply (contains_try_except _ _ (fun e => contains_emit _) w
             (add_event st (Log INFO "Running scheduled score refresh")) e).
Qed.

Lemma alerted_leads_app a b :
  alerted_leads (a ++ b) = alerted_leads a ++ alerted_leads b.
Proof. induction a as [|[] a IH]; simpl; now rewrite ?IH. Qed.

(** The message [notify_hot_lead] posts for [lead_score] at state [st]. *)
Lemma run_notify_hot_lead self lead_score w st :
  demo_mode (sn_settings self) = false ->
  String.eqb (webhook_url self) EmptyString = false ->
  let message :=
    HotLeadMessage (channel self) lead_score (utc w (tick st)) in
  let outcome :=
    match client_post w (webhook_url self) message with
    | inl e => Some e
    | inr response => raise_for_status response
    end in
  slack_posts (trace (exec (notify_hot_lead self lead_score) w st))
  = slack_posts (trace st) ++ [message] /\
  settings_cache (exec (notify_hot_lead self lead_score) w st)
  = settings_cache st /\
  eval (notify_hot_lead self lead_score) w st
  = match outcome with
    | None => inr true
    | Some e => if is_Exception e then inr false else inl e
    end.
Proof.
  intros Hd Hw message outcome. subst outcome.
  unfold notify_hot_lead. rewrite Hd, Hw.
  unfold eval, exec, try_except, bind, _format_hot_lead_message, http_post,
    bind, utcnow, emit, ret, do_raise_for_status. simpl. fold message.
  destruct (client_post w (webhook_url self) message) as [e|resp]; simpl.
  - destruct (is_Exception e); simpl;
      rewrite ?slack_posts_app; simpl; rewrite ?app_nil_r; repeat split.
  - destruct (raise_for_status resp) as [e|]; simpl.
    + destruct (is_Exception e); simpl;
        rewrite ?slack_posts_app; simpl; rewrite ?app_nil_r; repeat split.
    + rewrite ?slack_posts_app; simpl; rewrite ?app_nil_r; repeat split.
Qed.

(** What [notify_hot_lead] answers and sends.  In the demo mode it answers
    [True] and sends nothing; without a webhook URL it answers [False] and
    sends nothing; otherwise it posts exactly one message, for this lead,
    and answers [True] when the post went through and [False] when the
    request or its status check raised an [Exception]. *)
Theorem notify_hot_lead_outcome (self : SlackNotifier)
    (lead_score : LeadScore) (w : World) (st : State) :
  let after := exec (notify_hot_lead self lead_score) w st in
  (demo_mode (sn_settings self) = true ->
   eval (notify_hot_lead self lead_score) w st = inr true /\
   http_requests (trace after) = http_requests (trace st)) /\
  (demo_mode (sn_settings self) = false ->
   webhook_url self = EmptyString ->
   eval (notify_hot_lead self lead_score) w st = inr false /\
   http_requests (trace after) = http_requests (trace st)) /\
  (demo_mode (sn_settings self) = false ->
   webhook_url self <> EmptyString ->
   alerted_leads (slack_posts (trace after))
   = alerted_leads (slack_posts (trace st)) ++ [lead_score] /\
   (post_failures_are_exceptions w ->
    exists delivered, eval (notify_hot_lead self lead_score) w st
                      = inr delivered)).
Proof.
  intros after. subst after. repeat apply conj.
  - intros Hd. unfold notify_hot_lead. rewrite Hd.
    unfold eval, exec. simpl. split; [reflexivity|].
    rewrite http_requests_app. simpl. now rewrite app_nil_r.
  - intros Hd Hw. unfold notify_hot_lead. rewrite Hd, Hw.
    unfold eval, exec. simpl. split; [reflexivity|].
    rewrite http_requests_app. simpl. now rewrite app_nil_r.
  - intros Hd Hw.
    assert (Hw' : String.eqb (webhook_url self) EmptyString = false)
      by (now apply String.eqb_neq).
    destruct (run_notify_hot_lead self lead_score w st Hd Hw')
      as (Hp & _ & Hr).
    split.
    + now rewrite Hp, alerted_leads_app.
    + intros Hpost. rewrite Hr.
      specialize (Hpost (webhook_url self)
        (HotLeadMessage (channel self) lead_score (utc w (tick st)))).
      destruct (client_post w _ _) as [e|resp].
      * rewrite Hpost. eauto.
      * destruct (raise_for_status resp) as [e|]; [rewrite Hpost|]; eauto.
Qed.

Lemma notify_hot_lead_outcome_witness :
  let nt := {| sn_settings := production_settings;
               webhook_url := "https://hooks.slack.com/services/T/B/X";
               channel := "#sales-alerts" |} in
  let ls := test_score 0 0 in
  alerted_leads
    (slack_posts
       (trace (exec (notify_hot_lead nt ls) production_world
                 production_state)))
  = [ls].
Proof.
  intros nt ls.
  destruct (notify_hot_lead_outcome nt ls production_world production_state)
    as (_ & _ & H).
  destruct H as [H _]; [reflexivity | discriminate |]. exact H.
Defined.

(** The loop over the hot leads sends one alert per lead, in the order of
    the list, and goes on after a delivery that failed: as long as failures
    are [Exception]s, every hot lead is alerted and the loop returns. *)
Theorem every_hot_lead_is_alerted (self : SlackNotifier)
    (hot_leads : list LeadScore) (w : World) (st : State) :
  demo_mode (sn_settings self) = false ->
  webhook_url self <> EmptyString ->
  post_failures_are_exceptions w ->
  eval (notify_hot_leads self hot_leads) w st = inr tt /\
  alerted_leads
    (slack_posts (trace (exec (notify_hot_leads self hot_leads) w st)))
  = alerted_leads (slack_posts (trace st)) ++ hot_leads.
Proof.
  intros Hd Hw Hpost.
  assert (Hw' : String.eqb (webhook_url self) EmptyString = false)
    by (now apply String.eqb_neq).
  revert st. induction hot_leads as [|ls rest IH]; intros st; simpl.
  - unfold eval, exec. simpl. now rewrite app_nil_r.
  - destruct (run_notify_hot_lead self ls w st Hd Hw') as (Hp & _ & Hr).
    assert (Hret : exists b, eval (notify_hot_lead self ls) w st = inr b).
    { rewrite Hr.
      specialize (Hpost (webhook_url self)
        (HotLeadMessage (channel self) ls (utc w (tick st)))).
      destruct (client_post w _ _) as [e|resp].
      - rewrite Hpost. eauto.
      - destruct (raise_for_status resp) as [e|]; [rewrite Hpost|]; eauto. }
    destruct Hret as [b Hb].
    rewrite (eval_bind _ _ _ _ _ Hb), (exec_bind _ _ _ _ _ Hb).
    destruct (IH (exec (notify_hot_lead self ls) w st)) as [IH1 IH2].
    split; [exact IH1|].
    rewrite IH2, Hp, alerted_leads_app, <- app_assoc. reflexivity.
Qed.

Lemma every_hot_lead_is_alerted_witness :
  let nt := {| sn_settings := production_settings;
               webhook_url := "https://hooks.slack.com/services/T/B/X";
               channel := "#sales-alerts" |} in
  let a := test_score 0 0 in
  let b := test_score 1 1 in
  alerted_leads
    (slack_posts
       (trace (exec (notify_hot_leads nt [a; b]) production_world
                 production_state)))
  = [a; b].
Proof.
  intros nt a b.
  apply (every_hot_lead_is_alerted nt [a; b] production_world
           production_state); [reflexivity | discriminate |].
  intros url message. simpl. exact I.
Defined.

End NotifierExtras.

(** ** main.py: the refresh callback, run *)

Section RefreshExtras.

Lemma run_LeadScorer_init_of s w st :
  settings_cache st = Some s ->
  LeadScorer_init w st = (inr (LeadScorer_of s), st).
Proof.
  intros H. unfold LeadScorer_init, bind.
  rewrite (run_get_settings_cached s w st H). reflexivity.
Qed.

Lemma run_SlackNotifier_init_of s w st :
  settings_cache st = Some s ->
  SlackNotifier_init w st = (inr (SlackNotifier_of s), st).
Proof.
  intros H. unfold SlackNotifier_init, bind.
  rewrite (run_get_settings_cached s w st H). reflexivity.
Qed.

Lemma try_except_returns {A} (m : M A) h w st a st' :
  m w st = (inr a, st') -> try_except m h w st = (inr a, st').
Proof. intros H. unfold try_except. now rewrite H. Qed.

Lemma offline_demo_contacts : offline _get_demo_contacts.
Proof.
  intros w st. unfold _get_demo_contacts, bind, utcnow, ret.
  do 2 eexists. split; [reflexivity|]. split; reflexivity.
Qed.

Lemma offline_notify_hot_lead_demo self ls :
  demo_mode (sn_settings self) = true -> offline (notify_hot_lead self ls).
Proof.
  intros Hd. unfold notify_hot_lead. rewrite Hd.
  apply offline_bind; [apply offline_log | intros ?; apply offline_ret].
Qed.

Lemma offline_notify_hot_leads_demo self hot :
  demo_mode (sn_settings self) = true -> offline (notify_hot_leads self hot).
Proof.
  intros Hd. induction hot as [|ls hot IH]; simpl.
  - apply offline_ret.
  - apply offline_bind;
      [now apply offline_notify_hot_lead_demo | intros ?; exact IH].
Qed.

Lemma offline_notify_score_update_demo self total hot warm :
  demo_mode (sn_settings self) = true ->
  offline (notify_score_update self total hot warm).
Proof.
  intros Hd. unfold notify_score_update. rewrite Hd.
  apply offline_bind; [apply offline_log | intros ?; apply offline_ret].
Qed.

(** In the demo mode a whole refresh cycle runs without a single HTTP
    request: the contacts are the built-in ones, the notifications are only
    logged, and the callback returns. *)
Theorem demo_refresh_is_offline (w : World) (st : State) (s : Settings) :
  settings_cache st = Some s ->
  demo_mode s = true ->
  eval scheduled_score_refresh w st = inr tt /\
  http_requests (trace (exec scheduled_score_refresh w st))
  = http_requests (trace st).
Proof.
  intros Hc Hd.
  set (st0 := add_event st (Log INFO "Running scheduled score refresh")).
  assert (Hc0 : settings_cache st0 = Some s) by exact Hc.
  assert (Hrest : offline
    (let* leads := get_contacts (HubSpotClient_of s) 100 in
     let* scored_leads := score_leads (LeadScorer_of s) leads in
     let hot_leads := List.filter is_hot scored_leads in
     let* _ := notify_hot_leads (SlackNotifier_of s) hot_leads in
     let hot_count := Z.of_nat (length hot_leads) in
     let warm_count :=
       Z.of_nat (length (List.filter is_warm scored_leads)) in
     let* _ := notify_score_update (SlackNotifier_of s)
                 (Z.of_nat (length scored_leads)) hot_count warm_count in
     emit (Log INFO "Score refresh complete"))).
  { apply offline_bind.
    { unfold get_contacts. cbn [HubSpotClient_of hs_settings]. rewrite Hd.
      apply offline_demo_contacts. }
    intros leads. apply offline_bind; [apply offline_score_leads|].
    intros scored. cbv zeta. apply offline_bind.
    { now apply offline_notify_hot_leads_demo. }
    intros _. apply offline_bind.
    { now apply offline_notify_score_update_demo. }
    intros _. apply offline_log. }
  destruct (Hrest w st0) as (a & st' & Hrun & Ht & _).
  assert (Hcycle : scheduled_score_refresh w st = (inr a, st')).
  { unfold scheduled_score_refresh, bind at 1, emit at 1. fold st0.
    apply try_except_returns. unfold bind at 1.
    rewrite (run_HubSpotClient_init s w st0 Hc0). unfold bind at 1.
    rewrite (run_LeadScorer_init_of s w st0 Hc0). unfold bind at 1.
    rewrite (run_SlackNotifier_init_of s w st0 Hc0). exact Hrun. }
  unfold eval, exec. rewrite Hcycle. simpl. split; [now destruct a|].
  rewrite Ht. unfold st0. simpl. rewrite http_requests_app. simpl.
  now rewrite app_nil_r.
Qed.

Lemma demo_refresh_is_offline_witness :
  eval scheduled_score_refresh demo_world running_state = inr tt /\
  http_requests (trace (exec scheduled_score_refresh demo_world
                          running_state)) = [].
Proof.
  apply (demo_refresh_is_offline demo_world running_state default_settings);
    reflexivity.
Defined.






End RefreshExtras.

(** ** models/lead.py: LeadScore.name *)

Section LeadScoreName.

Lemma append_space_nonempty a b : String.append a (String " " b) <> EmptyString.
Proof. destruct a; discriminate. Qed.

(** The [name] of a scored lead is never empty: it is the lead's name when
    that is set and not empty, otherwise the first and the last name with a
    space between them, a missing part standing as the word None. *)
Theorem lead_score_name_never_empty (self : LeadScore) :
  LeadScore_name self <> EmptyString /\
  (forall n, name (lead self) = Some n -> n <> EmptyString ->
     LeadScore_name self = n) /\
  (name (lead self) = None \/ name (lead self) = Some EmptyString ->
   forall f l, first_name (lead self) = Some f ->
               last_name (lead self) = Some l ->
     LeadScore_name self = String.append f (String " " l)) /\
  (name (lead self) = None -> first_name (lead self) = None ->
   last_name (lead self) = None -> LeadScore_name self = "None None").
Proof.
  unfold LeadScore_name. repeat apply conj.
  - destruct (name (lead self)) as [n|]; [|apply append_space_nonempty].
    destruct (String.eqb_spec n EmptyString);
      [apply append_space_nonempty | assumption].
  - intros n -> Hn. apply String.eqb_neq in Hn. now rewrite Hn.
  - intros [-> | ->] f l -> ->; reflexivity.
  - intros -> -> ->. reflexivity.
Qed.

Lemma lead_score_name_never_empty_witness :
  LeadScore_name (test_score 0 0) = "Test Lead".
Proof.
  destruct (lead_score_name_never_empty (test_score 0 0)) as (_ & H & _).
  apply H; [reflexivity | discriminate].
Defined.

End LeadScoreName.

(** ** api/alerts.py: the test alert *)

Section TestAlert.

(** [POST /api/alerts/test] with the settings loaded.  Without a webhook
    URL it is refused with HTTP 400 before anything happens.  In the demo
    mode it reports success without any HTTP request.  Otherwise it posts
    one alert, for the test lead with score 85, and reports success when
    the post went through and HTTP 500 when it failed with an
    [Exception]. *)
Theorem test_slack_alert_outcome (w : World) (st : State) (s : Settings) :
  settings_cache st = Some s ->
  let after := exec test_slack_alert w st in
  (slack_webhook_url s = EmptyString ->
   eval test_slack_alert w st
   = inl (HTTPException 400 "Slack webhook URL not configured") /\
   after = st) /\
  (slack_webhook_url s <> EmptyString -> demo_mode s = true ->
   eval test_slack_alert w st = inr ("success", "Test alert sent to Slack") /\
   http_requests (trace after) = http_requests (trace st)) /\
  (slack_webhook_url s <> EmptyString -> demo_mode s = false ->
   let sent := test_score (utc w (tick st)) (utc w (S (tick st))) in
   let message :=
     HotLeadMessage (slack_channel s) sent (utc w (S (S (tick st)))) in
   slack_posts (trace after) = slack_posts (trace st) ++ [message] /\
   eval test_slack_alert w st
   = match
       match client_post w (slack_webhook_url s) message with
       | inl e => Some e
       | inr response => raise_for_status response
       end
     with
     | None => inr ("success", "Test alert sent to Slack")
     | Some e =>
         if is_Exception e
         then inl (HTTPException 500 "Failed to send test alert")
         else inl e
     end).
Proof.
  intros Hc after. subst after. repeat apply conj.
  - intros Hw. unfold eval, exec, test_slack_alert, bind.
    rewrite (run_get_settings_cached s w st Hc), Hw. simpl.
    split; reflexivity.
  - intros Hw Hd. apply String.eqb_neq in Hw.
    unfold eval, exec, test_slack_alert, bind.
    rewrite (run_get_settings_cached s w st Hc), Hw. simpl.
    rewrite (run_SlackNotifier_init_of s) by exact Hc.
    unfold notify_hot_lead. cbn [SlackNotifier_of sn_settings]. rewrite Hd.
    simpl. split; [reflexivity|].
    rewrite http_requests_app. simpl. now rewrite app_nil_r.
  - intros Hw Hd sent message. apply String.eqb_neq in Hw.
    set (st2 := {| tick := S (S (tick st));
                   settings_cache := settings_cache st;
                   trace := trace st |}).
    assert (Hc2 : settings_cache st2 = Some s) by exact Hc.
    destruct (run_notify_hot_lead (SlackNotifier_of s) sent w st2 Hd Hw)
      as (Hp & _ & Hr).
    cbn [SlackNotifier_of channel webhook_url] in Hp, Hr.
    change (utc w (tick st2)) with (utc w (S (S (tick st)))) in Hp, Hr.
    fold message in Hp, Hr.
    assert (Hrun : test_slack_alert w st =
      match notify_hot_lead (SlackNotifier_of s) sent w st2 with
      | (inr true, st') => (inr ("success", "Test alert sent to Slack"), st')
      | (inr false, st') =>
          (inl (HTTPException 500 "Failed to send test alert"), st')
      | (inl e, st') => (inl e, st')
      end).
    { unfold test_slack_alert, bind.
      rewrite (run_get_settings_cached s w st Hc), Hw. simpl.
      fold st2. rewrite (run_SlackNotifier_init_of s w st2 Hc2).
      change (notify_hot_lead (SlackNotifier_of s) _ w st2)
        with (notify_hot_lead (SlackNotifier_of s) sent w st2).
      destruct (notify_hot_lead (SlackNotifier_of s) sent w st2)
        as [[e|[]] st']; reflexivity. }
    unfold eval, exec in *. rewrite Hrun.
    destruct (notify_hot_lead (SlackNotifier_of s) sent w st2)
      as [[e|[]] st']; simpl in *;
      (split; [exact Hp|]);
      destruct (match client_post w (slack_webhook_url s) message with
                | inl e0 => Some e0
                | inr response => raise_for_status response
                end) as [e0|];
      try destruct (is_Exception e0); congruence.
Qed.

Lemma test_slack_alert_outcome_witness :
  eval test_slack_alert demo_world running_state
  = inl (HTTPException 400 "Slack webhook URL not configured") /\
  eval test_slack_alert production_world production_state
  = inr ("success", "Test alert sent to Slack").
Proof.
  destruct (test_slack_alert_outcome demo_world running_state
              default_settings eq_refl) as (H400 & _).
  destruct (test_slack_alert_outcome production_world production_state
              production_settings eq_refl) as (_ & _ & Hsend).
  split; [apply H400; reflexivity|].
  destruct Hsend as [_ Hr]; [discriminate | reflexivity |].
  exact Hr.
Defined.

End TestAlert.

(** ** api/leads.py *)

Section ApiExtras.

Variable exn_str : exn -> string.











End ApiExtras.




(** ** email_tracker.py *)

Section EmailTrackerExtras.

Open Scope Q_scope.

Lemma get_email_engagement_insert self lead_id e other :
  get_email_engagement (<[lead_id := e]> self) other
  = if decide (lead_id = other) then e else get_email_engagement self other.
Proof.
  unfold get_email_engagement. rewrite lookup_insert.
  destruct (decide (lead_id = other)); reflexivity.
Qed.

(** Tracking an open adds one to the two open counters of that lead and
    stamps [last_open]; a click does the same for the click counters and
    [last_click]; a reply adds one to the replies.  Nothing else of that
    lead changes, and no other lead is touched. *)
Theorem tracking_updates_one_lead (self : gmap string Engagement)
    (lead_id email_id link_url : string) (w : World) (st : State) :
  let before := get_email_engagement self lead_id in
  (exists self',
     eval (track_open self lead_id email_id) w st = inr self' /\
     get_email_engagement self' lead_id
     = {| total_sent := total_sent before;
          total_opens := total_opens before + 1;
          total_clicks := total_clicks before;
          total_replies := total_replies before;
          recent_opens_7d := recent_opens_7d before + 1;
          recent_clicks_7d := recent_clicks_7d before;
          last_open := Some (utc w (tick st));
          last_click := last_click before;
          open_rate := open_rate before;
          click_rate := click_rate before |} /\
     forall other, other <> lead_id ->
       get_email_engagement self' other = get_email_engagement self other) /\
  (exists self',
     eval (track_click self lead_id email_id link_url) w st = inr self' /\
     get_email_engagement self' lead_id
     = {| total_sent := total_sent before;
          total_opens := total_opens before;
          total_clicks := total_clicks before + 1;
          total_replies := total_replies before;
          recent_opens_7d := recent_opens_7d before;
          recent_clicks_7d := recent_clicks_7d before + 1;
          last_open := last_open before;
          last_click := Some (utc w (tick st));
          open_rate := open_rate before;
          click_rate := click_rate before |} /\
     forall other, other <> lead_id ->
       get_email_engagement self' other = get_email_engagement self other) /\
  (exists self',
     eval (track_reply self lead_id email_id) w st = inr self' /\
     get_email_engagement self' lead_id
     = {| total_sent := total_sent before;
          total_opens := total_opens before;
          total_clicks := total_clicks before;
          total_replies := total_replies before + 1;
          recent_opens_7d := recent_opens_7d before;
          recent_clicks_7d := recent_clicks_7d before;
          last_open := last_open before;
          last_click := last_click before;
          open_rate := open_rate before;
          click_rate := click_rate before |} /\
     forall other, other <> lead_id ->
       get_email_engagement self' other = get_email_engagement self other).
Proof.
  intros before. repeat apply conj;
    (eexists; split; [reflexivity|]; split;
     [ rewrite get_email_engagement_insert;
       destruct (decide (lead_id = lead_id)); [reflexivity | congruence]
     | intros other Hne; rewrite get_email_engagement_insert;
       destruct (decide (lead_id = other)); [congruence | reflexivity] ]).
Qed.

Lemma tracking_updates_one_lead_witness :
  exists self',
    eval (track_open EmailTracker_init "demo-1" "mail-7") demo_world
      initial_state = inr self' /\
    total_opens (get_email_engagement self' "demo-1") = 1%Z /\
    get_email_engagement self' "demo-2" = default_engagement.
Proof.
  destruct (tracking_updates_one_lead EmailTracker_init "demo-1" "mail-7"
              "link" demo_world initial_state)
    as ((self' & Hr & He & Ho) & _).
  exists self'. split; [exact Hr|]. split.
  - rewrite He. reflexivity.
  - rewrite Ho by discriminate. reflexivity.
Defined.

Lemma track_open_inv self lead_id email_id w st self' :
  eval (track_open self lead_id email_id) w st = inr self' ->
  exists now e,
    self' = <[lead_id := e]> self /\
    e = {| total_sent := total_sent (get_email_engagement self lead_id);
           total_opens := total_opens (get_email_engagement self lead_id) + 1;
           total_clicks := total_clicks (get_email_engagement self lead_id);
           total_replies := total_replies (get_email_engagement self lead_id);
           recent_opens_7d :=
             recent_opens_7d (get_email_engagement self lead_id) + 1;
           recent_clicks_7d :=
             recent_clicks_7d (get_email_engagement self lead_id);
           last_open := Some now;
           last_click := last_click (get_email_engagement self lead_id);
           open_rate := open_rate (get_email_engagement self lead_id);
           click_rate := click_rate (get_email_engagement self lead_id) |}.
Proof.
  unfold eval, track_open, bind, emit, utcnow, ret. simpl.
  intros H. injection H as <-. eauto.
Qed.

Lemma track_click_inv self lead_id email_id link_url w st self' :
  eval (track_click self lead_id email_id link_url) w st = inr self' ->
  exists now e,
    self' = <[lead_id := e]> self /\
    e = {| total_sent := total_sent (get_email_engagement self lead_id);
           total_opens := total_opens (get_email_engagement self lead_id);
           total_clicks :=
             total_clicks (get_email_engagement self lead_id) + 1;
           total_replies := total_replies (get_email_engagement self lead_id);
           recent_opens_7d :=
             recent_opens_7d (get_email_engagement self lead_id);
           recent_clicks_7d :=
             recent_clicks_7d (get_email_engagement self lead_id) + 1;
           last_open := last_open (get_email_engagement self lead_id);
           last_click := Some now;
           open_rate := open_rate (get_email_engagement self lead_id);
           click_rate := click_rate (get_email_engagement self lead_id) |}.
Proof.
  unfold eval, track_click, bind, emit, utcnow, ret. simpl.
  intros H. injection H as <-. eauto.
Qed.

Lemma track_reply_inv self lead_id email_id w st self' :
  eval (track_reply self lead_id email_id) w st = inr self' ->
  exists e,
    self' = <[lead_id := e]> self /\
    e = {| total_sent := total_sent (get_email_engagement self lead_id);
           total_opens := total_opens (get_email_engagement self lead_id);
           total_clicks := total_clicks (get_email_engagement self lead_id);
           total_replies :=
             total_replies (get_email_engagement self lead_id) + 1;
           recent_opens_7d :=
             recent_opens_7d (get_email_engagement self lead_id);
           recent_clicks_7d :=
             recent_clicks_7d (get_email_engagement self lead_id);
           last_open := last_open (get_email_engagement self lead_id);
           last_click := last_click (get_email_engagement self lead_id);
           open_rate := open_rate (get_email_engagement self lead_id);
           click_rate := click_rate (get_email_engagement self lead_id) |}.
Proof.
  unfold eval, track_reply, bind, emit, ret. simpl.
  intros H. injection H as <-. eauto.
Qed.

Lemma well_tracked_default : well_tracked default_engagement.
Proof. unfold well_tracked. simpl. repeat split; auto; lia. Qed.

Lemma tracked_well_tracked self :
  tracked self -> forall lead_id,
    well_tracked (get_email_engagement self lead_id).
Proof.
  induction 1 as [| self lead email w st self' _ IH Hr
                  | self lead email url w st self' _ IH Hr
                  | self lead email w st self' _ IH Hr]; intros lead_id.
  - apply well_tracked_default.
  - apply track_open_inv in Hr as (now & e & -> & ->).
    rewrite get_email_engagement_insert.
    destruct (decide (lead = lead_id)); [|apply IH].
    destruct (IH lead) as (H1 & H2 & H3 & H4 & H5 & H6 & H7 & H8 & H9 & H10).
    unfold well_tracked. simpl.
    repeat split; intros; try assumption; try lia; try discriminate;
      try (apply H7; assumption); try (apply H8; assumption).
  - apply track_click_inv in Hr as (now & e & -> & ->).
    rewrite get_email_engagement_insert.
    destruct (decide (lead = lead_id)); [|apply IH].
    destruct (IH lead) as (H1 & H2 & H3 & H4 & H5 & H6 & H7 & H8 & H9 & H10).
    unfold well_tracked. simpl.
    repeat split; intros; try assumption; try lia; try discriminate;
      try (apply H7; assumption); try (apply H8; assumption).
  - apply track_reply_inv in Hr as (e & -> & ->).
    rewrite get_email_engagement_insert.
    destruct (decide (lead = lead_id)); [|apply IH].
    destruct (IH lead) as (H1 & H2 & H3 & H4 & H5 & H6 & H7 & H8 & H9 & H10).
    unfold well_tracked. simpl.
    repeat split; intros; try assumption; try lia; try discriminate;
      try (apply H7; assumption); try (apply H8; assumption).
Qed.

(** Whatever has been tracked, the cache never records a sent mail and
    never lets a seven-day counter fall behind: for every lead
    [total_sent] is 0 and the [recent_..._7d] counters equal the totals.
    So [calculate_rates] on a tracked engagement always gives the rates
    0.0, and changes nothing. *)
Theorem tracker_invariants (self : gmap string Engagement) (lead_id : string) :
  tracked self ->
  let e := get_email_engagement self lead_id in
  total_sent e = 0%Z /\
  recent_opens_7d e = total_opens e /\
  recent_clicks_7d e = total_clicks e /\
  (last_open e = None <-> total_opens e = 0%Z) /\
  (last_click e = None <-> total_clicks e = 0%Z) /\
  open_rate (calculate_rates e) = 0.0 /\
  click_rate (calculate_rates e) = 0.0 /\
  calculate_rates e = e.
Proof.
  intros Ht e.
  destruct (tracked_well_tracked self Ht lead_id)
    as (H1 & H2 & H3 & H4 & H5 & H6 & H7 & H8 & H9 & H10).
  fold e in H1, H2, H3, H7, H8, H9, H10.
  assert (Hc : calculate_rates e = e).
  { unfold calculate_rates. rewrite H1. simpl. unfold with_rates.
    destruct e; simpl in *. now subst. }
  rewrite Hc. repeat split; try assumption; try apply H7; try apply H8.
Qed.

Lemma tracker_invariants_witness :
  exists self',
    eval (track_open EmailTracker_init "demo-1" "mail-7") demo_world
      initial_state = inr self' /\
    total_sent (get_email_engagement self' "demo-1") = 0%Z /\
    calculate_rates (get_email_engagement self' "demo-1")
    = get_email_engagement self' "demo-1".
Proof.
  eexists. split; [reflexivity|].
  assert (Ht : tracked (<["demo-1" :=
      {| total_sent := 0; total_opens := 0 + 1; total_clicks := 0;
         total_replies := 0; recent_opens_7d := 0 + 1;
         recent_clicks_7d := 0; last_open := Some (example_clock 0);
         last_click := None; open_rate := 0.0; click_rate := 0.0 |}]>
      EmailTracker_init)).
  { apply (tracked_open EmailTracker_init "demo-1" "mail-7" demo_world
             initial_state); [constructor | reflexivity]. }
  destruct (tracker_invariants _ "demo-1" Ht) as (H1 & _ & _ & _ & _ & _ & _ & H8).
  split; [exact H1 | exact H8].
Defined.

Lemma round_3_unit (x : Q) : 0 <= x <= 1 -> 0 <= round x 3 <= 1.
Proof.
  intros [H0 H1]. unfold round. change (inject_Z (10 ^ 3)) with 1000.
  destruct (round_half_even_between 0 1000 (x * 1000)) as [Ha Hb].
  - change (inject_Z 0) with 0. lra.
  - change (inject_Z 1000) with 1000. lra.
  - rewrite Zle_Qle in Ha, Hb.
    change (inject_Z 0) with 0 in Ha.
    change (inject_Z 1000) with 1000 in Hb.
    split.
    + apply Qle_shift_div_l; lra.
    + apply Qle_shift_div_r; lra.
Qed.

Lemma round_3_near (x : Q) : Qabs (round x 3 - x) <= 1 # 2000.
Proof.
  unfold round. change (inject_Z (10 ^ 3)) with 1000.
  pose proof (round_half_even_near (x * 1000)) as H.
  apply Qabs_Qle_condition in H. apply Qabs_Qle_condition.
  set (k := inject_Z (round_half_even (x * 1000))) in *.
  assert (E : k / 1000 - x == (k - x * 1000) / 1000) by (field; lra).
  rewrite E. split.
  - apply Qle_shift_div_l; lra.
  - apply Qle_shift_div_r; lra.
Qed.

Lemma ratio_unit (n d : Z) :
  (0 < d)%Z -> (0 <= n <= d)%Z -> 0 <= inject_Z n / inject_Z d <= 1.
Proof.
  intros Hd [H0 H1].
  assert (Hq : 0 < inject_Z d).
  { change 0 with (inject_Z 0). now rewrite <- Zlt_Qlt. }
  split.
  - apply Qle_shift_div_l; [exact Hq|]. rewrite Qmult_0_l.
    change 0 with (inject_Z 0). now rewrite <- Zle_Qle.
  - apply Qle_shift_div_r; [exact Hq|]. rewrite Qmult_1_l.
    now rewrite <- Zle_Qle.
Qed.

(** [calculate_rates] never divides by zero: with nothing sent both rates
    are 0.0.  With mails sent, and no more opens or clicks than mails, each
    rate lies in [0,1] and is the ratio rounded to three decimals, within
    0.0005 of it.  The counts are kept, and computing the rates twice
    changes nothing. *)
Theorem calculate_rates_bounds (e : Engagement) :
  (total_sent e = 0%Z ->
   open_rate (calculate_rates e) = 0.0 /\
   click_rate (calculate_rates e) = 0.0) /\
  ((0 < total_sent e)%Z ->
   (0 <= total_opens e <= total_sent e)%Z ->
   (0 <= total_clicks e <= total_sent e)%Z ->
   0 <= open_rate (calculate_rates e) <= 1 /\
   0 <= click_rate (calculate_rates e) <= 1 /\
   Qabs (open_rate (calculate_rates e)
         - inject_Z (total_opens e) / inject_Z (total_sent e)) <= 1 # 2000 /\
   Qabs (click_rate (calculate_rates e)
         - inject_Z (total_clicks e) / inject_Z (total_sent e))
   <= 1 # 2000) /\
  total_sent (calculate_rates e) = total_sent e /\
  total_opens (calculate_rates e) = total_opens e /\
  total_clicks (calculate_rates e) = total_clicks e /\
  calculate_rates (calculate_rates e) = calculate_rates e.
Proof.
  repeat apply conj.
  - intros H. unfold calculate_rates. rewrite H. split; reflexivity.
  - intros Hs Ho Hc. unfold calculate_rates.
    destruct (Z.eqb_spec (total_sent e) 0); [lia|]. simpl.
    repeat apply conj;
      try apply round_3_unit; try apply round_3_near;
      apply ratio_unit; assumption.
  - unfold calculate_rates. now destruct (total_sent e =? 0)%Z.
  - unfold calculate_rates. now destruct (total_sent e =? 0)%Z.
  - unfold calculate_rates. now destruct (total_sent e =? 0)%Z.
  - unfold calculate_rates.
    destruct (total_sent e =? 0)%Z eqn:E; simpl; rewrite E; reflexivity.
Qed.

Lemma calculate_rates_bounds_witness :
  let e := {| total_sent := 3; total_opens := 2; total_clicks := 1;
              total_replies := 0; recent_opens_7d := 2;
              recent_clicks_7d := 1; last_open := None; last_click := None;
              open_rate := 0.0; click_rate := 0.0 |} in
  0 <= open_rate (calculate_rates e) <= 1 /\
  open_rate (calculate_rates e) == 0.667.
Proof.
  intros e.
  destruct (calculate_rates_bounds e) as (_ & H & _).
  destruct H as (Ho & _); [simpl; lia | simpl; lia | simpl; lia |].
  split; [exact Ho | reflexivity].
Defined.

End EmailTrackerExtras.

(** ** ml/model.py: the encoders *)

Section ModelEncoders.

Open Scope Q_scope.

(** The stage table of the model and the stage table of the scorer agree:
    for every stage, known or not, in any case, the model's encoding is a
    hundred times the scorer's sub-score. *)
Theorem encode_deal_stage_agrees_with_scorer (l : Lead) :
  inject_Z (_encode_deal_stage (deal_stage l)) == 100 * _score_deal_stage l.
Proof.
  unfold _encode_deal_stage, _score_deal_stage, stage_map, stage_scores.
  generalize (lower (default EmptyString (deal_stage l))). intros k.
  rewrite !lookup_insert, !lookup_empty.
  repeat case_decide; reflexivity.
Qed.




End ModelEncoders.
